(** * AI Tab Navigator: ranking and selection core of [popup.js]

    A shallow embedding of the search pipeline of the popup controller:
    keyword extraction, hashtag search, the lexical ("fallback") scorer,
    validation of the on-device model's answer, the reconciler that
    combines both scorers, and the summarization step that feeds them.

    JavaScript strings are modelled as [string], a sequence of 8-bit code
    units read as the Latin-1 range of UTF-16; [toLowerCase], [trim] and
    the [\s] class are written out for that range.  Objects used as
    dictionaries ([reasonsMap], [scoresMap], [refToTab]) are [gmap]s. *)

From Stdlib Require Import ZArith QArith Ascii String DecimalString DecimalNat.
From Stdlib Require Import Sorting.Sorted Sorting.Permutation.
From stdpp Require Import gmap strings list fin_maps.

Local Open Scope Z_scope.

(** ** JavaScript string primitives *)

Module JsString.

Definition code (c : ascii) : N := N_of_ascii c.

(** [String.prototype.toLowerCase] on one code unit: A-Z, and the
    Latin-1 capitals U+00C0..U+00DE except the multiplication sign. *)
Definition lowerChar (c : ascii) : ascii :=
  let n := code c in
  if ((65 <=? n) && (n <=? 90))%N then ascii_of_N (n + 32)
  else if ((192 <=? n) && (n <=? 222) && negb (n =? 215))%N
       then ascii_of_N (n + 32)
  else c.

Fixpoint toLowerCase (s : string) : string :=
  match s with
  | EmptyString => EmptyString
  | String c s' => String (lowerChar c) (toLowerCase s')
  end.

(** The regular-expression class [\s] (also what [trim] strips):
    TAB, LF, VT, FF, CR, SPACE and NBSP. *)
Definition isSpace (c : ascii) : bool :=
  let n := code c in
  (((9 <=? n) && (n <=? 13)) || (n =? 32) || (n =? 160))%N.

(** [hay.includes(needle)] *)
Fixpoint includes (hay needle : string) : bool :=
  String.prefix needle hay ||
  match hay with
  | EmptyString => false
  | String _ hay' => includes hay' needle
  end.

(** The double-quote character, as a one-character string. *)
Definition dquote : string := String "034"%char EmptyString.

Definition startsWith (s p : string) : bool := String.prefix p s.

(** [s.slice(0, n)] *)
Definition slice0 (n : nat) (s : string) : string := String.substring 0 n s.

(** [s.substring(1)] *)
Definition substring1 (s : string) : string :=
  match s with
  | EmptyString => EmptyString
  | String _ s' => s'
  end.

Fixpoint trimStart (s : string) : string :=
  match s with
  | EmptyString => EmptyString
  | String c s' => if isSpace c then trimStart s' else s
  end.

(** Dropping trailing white space: a character is kept when it is not
    a space or when something is kept after it. *)
Fixpoint trimEnd (s : string) : string :=
  match s with
  | EmptyString => EmptyString
  | String c s' =>
      match trimEnd s' with
      | EmptyString => if isSpace c then EmptyString else String c EmptyString
      | r => String c r
      end
  end.

Definition trim (s : string) : string := trimEnd (trimStart s).

(** [s.split(re)] for a separator class matched greedily ([/\s+/],
    [/[,\s]+/]): [cur] is the piece being read, [inSep] tells that the
    previous character belonged to a separator run.  As in JavaScript a
    leading or trailing separator yields an empty first or last piece
    and the empty string yields one empty piece. *)
Fixpoint splitRun (sep : ascii -> bool) (s cur : string) (inSep : bool)
  : list string :=
  match s with
  | EmptyString => [cur]
  | String c s' =>
      if sep c
      then (if inSep then splitRun sep s' EmptyString true
            else cur :: splitRun sep s' EmptyString true)
      else splitRun sep s' (cur +:+ String c EmptyString) false
  end.

Definition split (sep : ascii -> bool) (s : string) : list string :=
  splitRun sep s EmptyString false.

(** [Boolean(s)] for a string: the empty string is falsy. *)
Definition truthy (s : string) : bool :=
  match s with EmptyString => false | _ => true end.

(** [xs.join(sep)] *)
Definition join (sep : string) (xs : list string) : string :=
  String.concat sep xs.

(** [s.replace(pat, rep)] with a string pattern: first occurrence only. *)
Fixpoint replaceFirst (pat rep s : string) : string :=
  if String.prefix pat s
  then rep +:+ String.substring (String.length pat)
                 (String.length s - String.length pat) s
  else match s with
       | EmptyString => EmptyString
       | String c s' => String c (replaceFirst pat rep s')
       end.

(** [s.replace(/[cls]/g, rep)] for a one-character class. *)
Fixpoint replaceClass (cls : ascii -> bool) (rep : string) (s : string)
  : string :=
  match s with
  | EmptyString => EmptyString
  | String c s' =>
      (if cls c then rep else String c EmptyString)
        +:+ replaceClass cls rep s'
  end.

(** A string has visible text when one of its characters is not white
    space. *)
Fixpoint hasVisible (s : string) : bool :=
  match s with
  | EmptyString => false
  | String c s' => negb (isSpace c) || hasVisible s'
  end.

(** [s.split(sep)] for a one-character string separator: every
    occurrence cuts, so adjacent separators give empty pieces. *)
Fixpoint splitOnRun (sep : ascii) (s cur : string) : list string :=
  match s with
  | EmptyString => [cur]
  | String c s' =>
      if Ascii.eqb c sep then cur :: splitOnRun sep s' EmptyString
      else splitOnRun sep s' (cur +:+ String c EmptyString)
  end.

Definition splitOn (sep : ascii) (s : string) : list string :=
  splitOnRun sep s EmptyString.

(** A stable sort for [xs.sort((a, b) => key(b) - key(a))]: [before y x]
    tells that [y] has to stay ahead of a later element [x], that is,
    [key y >= key x]. *)
Fixpoint insertStable {A} (before : A -> A -> bool) (x : A) (l : list A)
  : list A :=
  match l with
  | [] => [x]
  | y :: l' =>
      if before y x then y :: insertStable before x l' else x :: l
  end.

Definition sortStable {A} (before : A -> A -> bool) (l : list A) : list A :=
  fold_left (fun acc x => insertStable before x acc) l [].

(** [a] may stand ahead of [b] in a list sorted by [before]. *)
Definition ahead {A} (before : A -> A -> bool) (a b : A) : Prop :=
  before a b = true.

(** [[...new Set(xs)]]: first occurrences, in order. *)
Fixpoint dedup (seen xs : list string) : list string :=
  match xs with
  | [] => []
  | x :: xs' =>
      if existsb (String.eqb x) seen then dedup seen xs'
      else x :: dedup (x :: seen) xs'
  end.

Definition uniq (xs : list string) : list string := dedup [] xs.

(** [needle] occurs literally in [hay]. *)
Definition Substring (needle hay : string) : Prop :=
  exists pre post, hay = pre +:+ needle +:+ post.

End JsString.

Import JsString.

(** ** Keyword extraction ([extractKeywords]) *)

Module Keywords.

Definition stopWords : list string :=
  [ "i"; "me"; "my"; "your"; "a"; "an"; "the";
    "tab"; "tabs"; "looking"; "find"; "search"; "show"; "open";
    "for"; "about"; "in"; "on"; "at"; "to"; "from"; "with"; "of";
    "and"; "or"; "but";
    "this"; "that"; "these"; "those";
    "is"; "are"; "was"; "were"; "be"; "been"; "being";
    "have"; "has"; "had"; "do"; "does"; "did";
    "will"; "would"; "should"; "could"; "may"; "might"; "can";
    "want"; "need"; "am"; "try"; "get"; "go"; "see";
    "related"; "some"; "any"; "all"; "where" ].

(** [stopWords.has(word)] *)
Definition isStopWord (w : string) : bool :=
  existsb (String.eqb w) stopWords.

(** [query.toLowerCase().split(/\s+/).filter(Boolean)] *)
Definition words (query : string) : list string :=
  List.filter truthy (split isSpace (toLowerCase query)).

Definition meaningful (w : string) : bool :=
  negb (isStopWord w) && (2 <? String.length w)%nat.

Definition extractKeywords (query : string) : list string :=
  let ws := words query in
  let keywords := List.filter meaningful ws in
  match keywords with
  | [] => ws
  | _ => keywords
  end.

End Keywords.

(** ** Documents

    A tab summary as handed to the scorers by [getExistingSummaries]:
    every field is present ([title], [url] default to the empty string,
    [tags] to the empty array). *)

Record tabSummary := {
  tab_id : Z;
  tab_title : string;
  tab_url : string;
  tab_summary : string;
  tab_tags : list string
}.

(** What a scorer leaves behind: the ordered ids it returns and the
    [tabSelectionReasons] / [tabSelectionScores] objects it stores. *)
Record scored (score : Type) := {
  results : list Z;
  reasonsMap : gmap Z string;
  scoresMap : gmap Z score
}.
Arguments results {score} _.
Arguments reasonsMap {score} _.
Arguments scoresMap {score} _.

(** ** Hashtag search ([parseHashtagQuery], [performTagSearch]) *)

Module TagSearch.

Definition isCommaOrSpace (c : ascii) : bool :=
  Ascii.eqb c "," || isSpace c.

Record hashtagQuery := {
  isHashtagSearch : bool;
  tags : list string
}.

Definition parseHashtagQuery (query : string) : hashtagQuery :=
  let trimmed := trim query in
  if includes trimmed "#" then
    let hashtags :=
      List.filter truthy
        (map (fun tag => toLowerCase (substring1 tag))
           (List.filter (fun word => startsWith word "#")
              (split isCommaOrSpace trimmed))) in
    match hashtags with
    | [] => {| isHashtagSearch := false; tags := [] |}
    | _ => {| isHashtagSearch := true; tags := hashtags |}
    end
  else {| isHashtagSearch := false; tags := [] |}.

(** The test of the inner loop, on an already lower-cased tab tag. *)
Definition tagHit (tabTag searchTag : string) : bool :=
  String.eqb tabTag searchTag || includes tabTag searchTag
  || includes searchTag tabTag.

(** The two nested loops over [searchTags] and [tabTags]: the inner
    loop stops at the first hit, so a search tag counts once. *)
Definition matchTags (tabTags searchTags : list string)
  : list string * Z :=
  fold_left
    (fun '(matchedTags, score) searchTag =>
       if existsb (fun tabTag => tagHit tabTag searchTag) tabTags
       then (matchedTags ++ [searchTag], score + 10)
       else (matchedTags, score))
    searchTags ([], 0).

Definition tagReason (matchedTags : list string) : string :=
  "Matched tags: #" +:+ join ", #" matchedTags.

Definition tagStep (searchTags : list string) (acc : scored Z)
  (summary : tabSummary) : scored Z :=
  let tabTags := map toLowerCase (tab_tags summary) in
  let '(matchedTags, score) := matchTags tabTags searchTags in
  match matchedTags with
  | [] => acc
  | _ =>
      {| results := results acc ++ [tab_id summary];
         reasonsMap := <[tab_id summary := tagReason matchedTags]> (reasonsMap acc);
         scoresMap := <[tab_id summary := score]> (scoresMap acc) |}
  end.

Definition performTagSearch (summaries : list tabSummary)
  (searchTags : list string) : scored Z :=
  fold_left (tagStep searchTags) summaries
    {| results := []; reasonsMap := ∅; scoresMap := ∅ |}.

(** The reading of the matching rule: equality or containment in
    either direction, ignoring case. *)
Definition matchesCI (docTag queryTag : string) : Prop :=
  let a := toLowerCase docTag in
  let b := toLowerCase queryTag in
  a = b \/ Substring b a \/ Substring a b.

Definition docMatches (s : tabSummary) (queryTag : string) : Prop :=
  exists t, In t (tab_tags s) /\ matchesCI t queryTag.

(** The test the search applies to one document and one query tag. *)
Definition docMatchesb (s : tabSummary) (searchTag : string) : bool :=
  existsb (fun tabTag => tagHit tabTag searchTag)
    (map toLowerCase (tab_tags s)).

(** Whether a document is hit by at least one query tag. *)
Definition anyHit (searchTags : list string) (s : tabSummary) : bool :=
  existsb (docMatchesb s) searchTags.

End TagSearch.

(** ** URLs

    [new URL(s)] is the browser's parser; the core only reads
    [protocol], [hostname] and [pathname] of the result and catches the
    exception thrown for a string that is not a URL. *)

Record parsedUrl := {
  protocol : string;
  hostname : string;
  pathname : string
}.

Module Lexical.

Section WithUrl.

Variable parseURL : string -> option parsedUrl.

Definition isPathSep (c : ascii) : bool :=
  Ascii.eqb c "/" || Ascii.eqb c "-" || Ascii.eqb c "_".

(** The [try { new URL(...) } catch { ... }] block building [urlParts]. *)
Definition urlPartsOf (url : string) : string :=
  match parseURL url with
  | Some u =>
      toLowerCase
        (replaceFirst "www." "" (hostname u) +:+ " "
           +:+ replaceClass isPathSep " " (pathname u))
  | None => toLowerCase url
  end.

(** The suffix pattern [/(?:ing|ed|s|es|ship|ships)$/i]: the match
    that starts leftmost is the longest suffix of the alternation. *)
Definition stemSuffixes : list string :=
  ["ships"; "ship"; "ing"; "ed"; "es"; "s"].

Fixpoint stripSuffixCI (suf s : string) : option string :=
  if String.eqb (toLowerCase s) suf then Some EmptyString
  else match s with
       | EmptyString => None
       | String c s' =>
           match stripSuffixCI suf s' with
           | Some r => Some (String c r)
           | None => None
           end
       end.

Fixpoint stripFirst (sufs : list string) (word : string) : string :=
  match sufs with
  | [] => word
  | suf :: sufs' =>
      match stripSuffixCI suf word with
      | Some r => r
      | None => stripFirst sufs' word
      end
  end.

Definition stem (word : string) : string := stripFirst stemSuffixes word.

(** [field.includes(word) || (stem.length >= 3 && field.includes(stem))] *)
Definition fieldMatch (field word : string) : bool :=
  includes field word
  || ((3 <=? String.length (stem word))%nat && includes field (stem word)).

Record fullTextEntry := { ft_id : Z; fullText : string }.

(** The accumulator of the scoring loop. *)
Record tally := {
  score : Z;
  matchedIn : list string;
  matchedWords : list string
}.

Definition bump (hit : bool) (points : Z) (field : string) (t : tally)
  : tally :=
  if hit
  then {| score := score t + points;
          matchedIn := matchedIn t ++ [field];
          matchedWords := matchedWords t |}
  else t.

Definition noteWord (hit : bool) (word : string) (t : tally) : tally :=
  if hit
  then {| score := score t; matchedIn := matchedIn t;
          matchedWords := matchedWords t ++ [word] |}
  else t.

(** One turn of [for (const word of words)] in [performFallbackSearch]. *)
Definition scoreWord (isAggressive : bool)
  (title summary tags urlParts fullText : string) (t : tally)
  (word : string) : tally :=
  if (String.length word <? 3)%nat then t
  else
    let titleMatch := fieldMatch title word in
    let summaryMatch := negb isAggressive && fieldMatch summary word in
    let tagMatch := fieldMatch tags word in
    let urlMatch := fieldMatch urlParts word in
    let fullTextMatch :=
      isAggressive && truthy fullText && fieldMatch fullText word in
    bump urlMatch 1 "url"
      (bump fullTextMatch 4 "content"
         (bump summaryMatch 3 "summary"
            (bump tagMatch 7 "tags"
               (bump titleMatch 5 "title"
                  (noteWord
                     (titleMatch || summaryMatch || tagMatch || urlMatch
                      || fullTextMatch) word t))))).

Record scoredTab := {
  st_id : Z;
  st_score : Z;
  st_matchedIn : list string;
  st_matchedWords : list string
}.

(** The callback of [summaries.map(s => ...)]. *)
Definition scoreTab (words : list string)
  (fullTextData : option (list fullTextEntry)) (s : tabSummary)
  : scoredTab :=
  let title := toLowerCase (tab_title s) in
  let summary := toLowerCase (tab_summary s) in
  let tags := join " " (map toLowerCase (tab_tags s)) in
  let urlParts := urlPartsOf (tab_url s) in
  let isAggressive :=
    match fullTextData with Some _ => true | None => false end in
  let fullText :=
    match fullTextData with
    | Some data =>
        match List.find (fun ft => Z.eqb (ft_id ft) (tab_id s)) data with
        | Some ft => toLowerCase (fullText ft)
        | None => EmptyString
        end
    | None => EmptyString
    end in
  let t :=
    fold_left (scoreWord isAggressive title summary tags urlParts fullText)
      words {| score := 0; matchedIn := []; matchedWords := [] |} in
  {| st_id := tab_id s; st_score := score t;
     st_matchedIn := uniq (matchedIn t);
     st_matchedWords := uniq (matchedWords t) |}.

(** [Math.max(words.length * 2, 4)] *)
Definition minScore (words : list string) : Z :=
  Z.max (Z.of_nat (List.length words) * 2) 4.

Definition lexicalReason (item : scoredTab) : string :=
  "Matched "
    +:+ (match st_matchedWords item with
         | [] => ""
         | ws => dquote +:+ join (dquote +:+ ", " +:+ dquote) ws
                   +:+ dquote +:+ " in "
         end)
    +:+ join ", " (st_matchedIn item).

Definition byScoreDesc (y x : scoredTab) : bool := st_score x <=? st_score y.

Definition performFallbackSearch (summaries : list tabSummary)
  (query : string) (fullTextData : option (list fullTextEntry))
  : scored Z :=
  let words := Keywords.extractKeywords query in
  let scoredTabs := sortStable byScoreDesc
                      (map (scoreTab words fullTextData) summaries) in
  let filtered :=
    List.filter (fun x => minScore words <=? st_score x) scoredTabs in
  {| results := map st_id filtered;
     reasonsMap :=
       fold_left (fun m item => <[st_id item := lexicalReason item]> m)
         filtered ∅;
     scoresMap :=
       fold_left (fun m item => <[st_id item := st_score item]> m)
         filtered ∅ |}.

End WithUrl.

End Lexical.

(** ** Semantic scorer: validation of the model's answer
    ([tryOnDeviceSelectFromSummaries]) *)

Module Semantic.

(** The JavaScript values a field of a parsed result can hold, as far as
    the checks tell them apart.  [VInfinite] is a number that is not
    finite; [VOther] stands for booleans, arrays and objects. *)
Inductive jsval :=
| VUndefined
| VNull
| VNum (q : Q)
| VInfinite
| VStr (s : string)
| VOther.

Record candidate := {
  ref : jsval;
  relevanceScore : jsval;
  reason : jsval
}.

(** An element of [parsed.results].  Reading a property of [null]
    throws; a number or string element has no properties and behaves as
    an object whose three fields are [VUndefined]. *)
Inductive rawItem :=
| ItemNull
| ItemObj (r : candidate).

Record anonymousTab := {
  a_ref : string;
  a_id : Z;
  a_title : string;
  a_summary : string;
  a_tags : list string;
  a_url : string
}.

(** [a || b] on strings *)
Definition orElse (a b : string) : string := if truthy a then a else b.

Definition decimal (n : nat) : string :=
  NilEmpty.string_of_uint (Nat.to_uint n).

(** The callback of [summaries.map((s, idx) => ...)]. *)
Definition anonymize (idx : nat) (s : tabSummary) : anonymousTab :=
  {| a_ref := "tab" +:+ decimal (idx + 1);
     a_id := tab_id s;
     a_title := orElse (tab_title s) "Untitled";
     a_summary := orElse (tab_summary s) "No summary";
     a_tags := tab_tags s;
     a_url := tab_url s |}.

Definition anonymousTabs (summaries : list tabSummary) : list anonymousTab :=
  imap anonymize summaries.

(** [refToTab], filled by [forEach] with [Map.set]; [refToId] is its
    [a_id] projection. *)
Definition refToTab (summaries : list tabSummary)
  : gmap string anonymousTab :=
  fold_left (fun m tab => <[a_ref tab := tab]> m)
    (anonymousTabs summaries) ∅.

Definition isQuote (c : ascii) : bool := Ascii.eqb c "'".

(** [reason.match(/'([^']+)'/g) || []], scanning left to right:
    [open] holds the characters read since the last opening quote.  A
    quote directly after an opening quote cannot close it (the group
    needs a character) and becomes the opening quote itself. *)
Fixpoint scanQuoted (s : string) (open : option string) : list string :=
  match s with
  | EmptyString => []
  | String c s' =>
      match open with
      | None => scanQuoted s' (if isQuote c then Some EmptyString else None)
      | Some buf =>
          if isQuote c then
            match buf with
            | EmptyString => scanQuoted s' (Some EmptyString)
            | _ => ("'" +:+ buf +:+ "'") :: scanQuoted s' None
            end
          else scanQuoted s' (Some (buf +:+ String c EmptyString))
      end
  end.

Definition quotedTexts (reason : string) : list string :=
  scanQuoted reason None.

(** [quoted.replace(/'/g, '').toLowerCase().trim()] *)
Definition cleanQuoted (quoted : string) : string :=
  trim (toLowerCase (replaceClass isQuote "" quoted)).

Definition tagsLower (tab : anonymousTab) : string :=
  join " " (map toLowerCase (a_tags tab)).

Definition matchesThisTab (tab : anonymousTab) (clean : string) : bool :=
  includes (toLowerCase (a_title tab)) clean
  || includes (toLowerCase (a_summary tab)) clean
  || includes (toLowerCase (a_url tab)) clean
  || includes (tagsLower tab) clean.

(** The [for (const quoted of quotedTexts)] loop computing
    [foundMatch]: short quotes are skipped, the first match ends it. *)
Definition foundMatch (tab : anonymousTab) (quoted : list string) : bool :=
  existsb
    (fun q =>
       let clean := cleanQuoted q in
       (5 <=? String.length clean)%nat && matchesThisTab tab clean)
    quoted.

(** The grounding block: passes when nothing is quoted. *)
Definition grounded (tab : anonymousTab) (reason : string) : bool :=
  match quotedTexts reason with
  | [] => true
  | quoted => foundMatch tab quoted
  end.

Definition uncertaintyPhrases : list string :=
  [ "but context is"; "however"; "but it"; "although";
    "not directly"; "not exactly"; "might be"; "could be";
    "possibly"; "perhaps"; "may be related"; "somewhat related";
    "loosely related"; "tangentially"; "indirectly";
    "not quite"; "not really"; "unclear"; "unsure"; "uncertain" ].

Definition hasUncertainty (reasonLower : string) : bool :=
  existsb (fun phrase => includes reasonLower phrase) uncertaintyPhrases.

Definition Qltb (x y : Q) : bool := negb (Qle_bool y x).

(** [foundKeywords.length / queryKeywords.length], or 1 without
    keywords. *)
Definition keywordMatchRatio (queryKeywords : list string)
  (reasonLower : string) : Q :=
  let found :=
    List.filter (fun keyword => includes reasonLower (toLowerCase keyword))
      queryKeywords in
  match queryKeywords with
  | [] => 1%Q
  | _ => Qmake (Z.of_nat (List.length found))
           (Pos.of_nat (List.length queryKeywords))
  end.

(** [clean] occurs literally in the lower-cased title, summary, URL or
    joined tags of the tab. *)
Definition occursIn (tab : anonymousTab) (clean : string) : Prop :=
  Substring clean (toLowerCase (a_title tab))
  \/ Substring clean (toLowerCase (a_summary tab))
  \/ Substring clean (toLowerCase (a_url tab))
  \/ Substring clean (tagsLower tab).

(** The same for a document as [summaries] holds it: [clean] occurs in
    its lower-cased title, summary or URL, in its lower-cased tags
    joined by spaces, or in the placeholder that [anonymize] puts in
    the place of an empty title or summary. *)
Definition occursInDocument (d : tabSummary) (clean : string) : Prop :=
  Substring clean (toLowerCase (tab_title d))
  \/ Substring clean (toLowerCase (tab_summary d))
  \/ Substring clean (toLowerCase (tab_url d))
  \/ Substring clean (join " " (map toLowerCase (tab_tags d)))
  \/ (tab_title d = EmptyString /\ Substring clean "untitled")
  \/ (tab_summary d = EmptyString /\ Substring clean "no summary").


Section Validation.

Variable summaries : list tabSummary.
Variable queryKeywords : list string.

(** The body shared by the two [filter] callbacks, which differ in the
    score floor and in the coverage threshold only. *)
Definition acceptsWith (floor coverage : Q) (r : candidate) : bool :=
  match ref r, relevanceScore r, reason r with
  | VStr rf, VNum sc, VStr rs =>
      truthy rf && truthy rs && negb (Qltb sc floor) &&
      match refToTab summaries !! rf with
      | None => false
      | Some tabData =>
          let reasonLower := toLowerCase rs in
          grounded tabData rs
          && negb (hasUncertainty reasonLower)
          && negb (Qltb (keywordMatchRatio queryKeywords reasonLower) coverage
                   && (String.length rs <? 50)%nat)
      end
  | _, _, _ => false
  end.

(** First pass: [relevanceScore >= 6], coverage threshold 0.4. *)
Definition firstPass : candidate -> bool := acceptsWith 6 (2 # 5).

(** Second pass: [relevanceScore >= 4], coverage threshold 0.3. *)
Definition secondPass : candidate -> bool := acceptsWith 4 (3 # 10).

(** [parsed.results.filter(callback)]: the callback reads [r.ref]
    first, which throws a [TypeError] ([None]) on a [null] element. *)
Fixpoint filterResults (accepts : candidate -> bool) (rs : list rawItem)
  : option (list candidate) :=
  match rs with
  | [] => Some []
  | ItemNull :: _ => None
  | ItemObj r :: rs' =>
      match filterResults accepts rs' with
      | Some kept => Some (if accepts r then r :: kept else kept)
      | None => None
      end
  end.

Definition scoreOf (r : candidate) : Q :=
  match relevanceScore r with VNum q => q | _ => 0%Q end.

Definition byRelevanceDesc (y x : candidate) : bool :=
  Qle_bool (scoreOf x) (scoreOf y).

(** [validResults] after both passes. *)
Definition validate (rs : list rawItem) : option (list candidate) :=
  match filterResults firstPass rs with
  | None => None
  | Some kept =>
      match sortStable byRelevanceDesc kept with
      | [] =>
          match filterResults secondPass rs with
          | None => None
          | Some kept2 => Some (sortStable byRelevanceDesc kept2)
          end
      | validResults => Some validResults
      end
  end.

(** The elements of [parsed.results] that are objects. *)
Definition objects (rs : list rawItem) : list candidate :=
  omap (fun it => match it with ItemObj r => Some r | ItemNull => None end)
    rs.

Definition isNull (it : rawItem) : bool :=
  match it with ItemNull => true | ItemObj _ => false end.

(** The validated candidates of a call; the [catch] of the function
    turns a thrown [TypeError] into no candidate at all. *)
Definition accepted (rs : list rawItem) : list candidate :=
  match validate rs with
  | Some validResults => validResults
  | None => []
  end.

Definition refToId (rf : jsval) : option Z :=
  match rf with
  | VStr s => a_id <$> (refToTab summaries !! s)
  | _ => None
  end.

Definition reasonOf (r : candidate) : string :=
  match reason r with VStr s => s | _ => EmptyString end.

(** The environment of one call: what the session and the prompt did. *)
Inductive aiReply :=
| NoSession
| AbortedBeforePrompt
| PromptFailed
| AbortedAfterPrompt
| NoResultsArray
| Results (rs : list rawItem).

(** The ids returned and the merged reasons and scores written to
    session storage; [existing] is what the storage held before.  Every
    early [return []] and the [catch] leave the storage untouched. *)
Definition tryOnDeviceSelectFromSummaries (reply : aiReply)
  (existing : scored Q) : scored Q :=
  let unchanged :=
    {| results := []; reasonsMap := reasonsMap existing;
       scoresMap := scoresMap existing |} in
  match reply with
  | Results rs =>
      match validate rs with
      | None => unchanged
      | Some validResults =>
          let finalIds := omap (fun r => refToId (ref r)) validResults in
          let tabReasons :=
            fold_left
              (fun m r => match refToId (ref r) with
                          | Some tabId => <[tabId := reasonOf r]> m
                          | None => m
                          end)
              validResults (∅ : gmap Z string) in
          let tabScores :=
            fold_left
              (fun m r => match refToId (ref r) with
                          | Some tabId => <[tabId := scoreOf r]> m
                          | None => m
                          end)
              validResults (∅ : gmap Z Q) in
          {| results := finalIds;
             reasonsMap := tabReasons ∪ reasonsMap existing;
             scoresMap := tabScores ∪ scoresMap existing |}
      end
  | _ => unchanged
  end.

End Validation.

End Semantic.

(** ** Summarization ([summarizeBatch], [generateFallbackTags]) *)

Module Summarize.

Record extracted := {
  e_id : Z;
  e_title : string;
  e_url : string;
  e_text : string
}.

(** A truthy value of [parsed.summary] that is not a string.  JSON
    gives an array, [true], a number other than 0, or an object.
    [summarizeBatch] has no [typeof] test and reads [.length] and
    [.slice] of whatever it finds:
    - an array has both; the [items] are its elements as
      [Array.prototype.join] renders them;
    - [true] and a number have neither, and [undefined > 500] is false;
    - an object has no callable [slice]; [long] tells whether its
      [length] field compares greater than 500. *)
Inductive foreign :=
| FArray (items : list string)
| FScalar
| FObject (long : bool).

(** [parsed.summary]: [Missing] is a falsy value that is not a string
    ([undefined], [null], [false], [0]). *)
Inductive summaryField :=
| Missing
| Text (s : string)
| Foreign (v : foreign).

(** What [summarizeBatch] reads from [safeJsonParse(raw || '{}')]:
    [p_summary] is [parsed.summary], [p_tags] is [parsed.tags] when
    [Array.isArray] holds.  A falsy parse result ([null], a failed
    parse) is [None] at the call. *)
Record parsedSummary := {
  p_summary : summaryField;
  p_tags : option (list string)
}.

(** The [summary] of a record: a string, or the value of
    [parsed.summary] stored as it came. *)
Inductive summaryValue :=
| Str (s : string)
| Kept (v : foreign).

(** [!!summary] *)
Definition truthyValue (v : summaryValue) : bool :=
  match v with
  | Str s => truthy s
  | Kept _ => true
  end.

(** The number of characters of a summary that is a string. *)
Definition textLength (v : summaryValue) : option nat :=
  match v with
  | Str s => Some (String.length s)
  | Kept _ => None
  end.

(** The object [{ id, title, url, summary, tags }] returned for a
    page. *)
Record summaryRecord := {
  s_id : Z;
  s_title : string;
  s_url : string;
  s_summary : summaryValue;
  s_tags : list string
}.

(** [applyOnDevicePrompt] throws, or returns a string or [null]. *)
Inductive promptOutcome :=
| PromptThrows
| PromptReturns (raw : option string).

Section WithEnv.

Variable parseURL : string -> option parsedUrl.
Variable safeJsonParse : string -> option parsedSummary.

Definition maxLength : nat := 500.

(** [s.length > maxLength ? s.slice(0, maxLength) + '...' : s] *)
Definition clip (s : string) : string :=
  if (maxLength <? String.length s)%nat
  then slice0 maxLength s +:+ "..."
  else s.

Definition anyIncludes (s : string) (needles : list string) : bool :=
  existsb (includes s) needles.

(** The [if / else if] chain on the domain. *)
Definition domainTags (domain : string) : list string :=
  if includes domain "github" then ["development"]
  else if anyIncludes domain ["stackoverflow"; "stackexchange"]
       then ["programming"]
  else if anyIncludes domain ["youtube"; "vimeo"] then ["video"]
  else if anyIncludes domain ["linkedin"; "twitter"; "facebook"]
       then ["social"]
  else if anyIncludes domain ["amazon"; "ebay"; "shop"] then ["shopping"]
  else if anyIncludes domain ["gmail"; "outlook"; "mail"] then ["email"]
  else if anyIncludes domain ["docs.google"; "office.com"]
       then ["documents"]
  else if includes domain "calendar" then ["calendar"]
  else if anyIncludes domain ["drive.google"; "dropbox"; "onedrive"]
       then ["storage"]
  else if anyIncludes domain ["news"; "cnn"; "bbc"] then ["news"]
  else
    match splitOn "." domain with
    | first :: _ :: _ => [first]
    | _ => []
    end.

Definition tagIf (s : string) (needles : list string) (tag : string)
  : list string :=
  if anyIncludes s needles then [tag] else [].

Definition topicTags (s : string) : list string :=
  tagIf s ["insurance"] "insurance"
  ++ tagIf s ["finance"; "bank"] "finance"
  ++ tagIf s ["health"; "medical"] "health"
  ++ tagIf s ["education"; "course"] "education"
  ++ tagIf s ["job"; "career"] "jobs".

Definition titleTags (titleLower : string) : list string :=
  topicTags titleLower
  ++ tagIf titleLower ["news"] "news"
  ++ tagIf titleLower ["shop"; "buy"] "shopping"
  ++ tagIf titleLower ["video"; "watch"] "video"
  ++ tagIf titleLower ["doc"; "edit"] "documents".

Definition generateFallbackTags (title url : string) : list string :=
  let urlTags :=
    match parseURL url with
    | Some urlObj =>
        domainTags (toLowerCase (replaceFirst "www." "" (hostname urlObj)))
        ++ topicTags (toLowerCase (pathname urlObj))
    | None => []
    end in
  let tags :=
    urlTags ++ (if truthy title then titleTags (toLowerCase title) else []) in
  firstn 3 (uniq tags).

(** The value of
    [v.length > maxLength ? v.slice(0, maxLength) + '...' : v]
    for a truthy [v] that is not a string; [None] when the expression
    throws.  An array longer than 500 is cut to 500 elements and
    turned into a string by [+]: its elements joined by commas. *)
Definition clipForeign (v : foreign) : option summaryValue :=
  match v with
  | FArray items =>
      if (maxLength <? List.length items)%nat
      then Some (Str (join "," (firstn maxLength items) +:+ "..."))
      else Some (Kept v)
  | FScalar => Some (Kept v)
  | FObject long => if long then None else Some (Kept v)
  end.

(** The [try] block: the summary and tags obtained from the model;
    the empty summary when nothing usable came back.  An exception
    thrown inside the block leaves [summary] and [tags] as they were
    initialised. *)
Definition fromModel (outcome : promptOutcome)
  : summaryValue * list string :=
  match outcome with
  | PromptThrows => (Str EmptyString, [])
  | PromptReturns raw =>
      let rawText := match raw with Some r => r | None => EmptyString end in
      match safeJsonParse (Semantic.orElse rawText "{}") with
      | None => (Str (clip (trim rawText)), [])
      | Some parsed =>
          let tags :=
            match p_tags parsed with
            | Some ts => firstn 3 ts
            | None => []
            end in
          match p_summary parsed with
          | Missing => (Str EmptyString, [])
          | Text s =>
              if truthy s then (Str (clip s), tags)
              else (Str EmptyString, [])
          | Foreign v =>
              match clipForeign v with
              | Some summary => (summary, tags)
              | None => (Str EmptyString, [])
              end
          end
      end
  end.

(** The callback of [extracted.map(async item => ...)]; [session] tells
    whether [getOnDeviceSession] gave a session. *)
Definition summarizeItem (session : bool) (outcome : promptOutcome)
  (item : extracted) : summaryRecord :=
  let '(summary, tags) :=
    if session && truthy (e_text item) then fromModel outcome
    else (Str EmptyString, []) in
  let '(summary, tags) :=
    if truthyValue summary then (summary, tags)
    else
      let fallbackText :=
        Semantic.orElse (e_text item)
          (Semantic.orElse (e_title item) (e_url item)) in
      (Str (clip fallbackText),
       generateFallbackTags (e_title item) (e_url item)) in
  {| s_id := e_id item; s_title := e_title item; s_url := e_url item;
     s_summary := summary; s_tags := tags |}.

(** [summarizeBatch]: one prompt outcome per item. *)
Definition summarizeBatch (session : bool)
  (outcomeOf : extracted -> promptOutcome) (items : list extracted)
  : list summaryRecord :=
  map (fun item => summarizeItem session (outcomeOf item) item) items.

End WithEnv.

End Summarize.

(** ** Result reconciler ([selectFromSummariesWithAIOrFallback] and the
    part of [handleSearch] that consumes its result) *)

Module Reconciler.

Inductive source := Keyword | Ai.

#[global] Instance source_eq_dec : EqDecision source.
Proof. solve_decision. Defined.

Record browserTab := {
  bt_id : Z;
  bt_title : string;
  bt_url : string
}.

Record searchSession := {
  query : string;
  tabIds : list Z
}.

(** The state the search writes to: [rendered] is the id list last
    handed to [renderResultsList], [status] the text last given to
    [setStatus] (or assigned to [status.textContent]), the other two
    fields are the session-storage keys of the same name. *)
Record world := {
  rendered : list Z;
  status : string;
  tabResultSources : gmap Z source;
  aiSearchSession : option searchSession
}.

Definition setStatus (msg : string) (w : world) : world :=
  {| rendered := rendered w; status := msg;
     tabResultSources := tabResultSources w;
     aiSearchSession := aiSearchSession w |}.

Definition renderResultsList (ids : list Z) (w : world) : world :=
  {| rendered := ids; status := status w;
     tabResultSources := tabResultSources w;
     aiSearchSession := aiSearchSession w |}.

Definition setSources (m : gmap Z source) (w : world) : world :=
  {| rendered := rendered w; status := status w;
     tabResultSources := m;
     aiSearchSession := aiSearchSession w |}.

Definition setSession (s : option searchSession) (w : world) : world :=
  {| rendered := rendered w; status := status w;
     tabResultSources := tabResultSources w;
     aiSearchSession := s |}.

(** [ids.forEach(id => { resultSources[id] = src; })] on a fresh object *)
Definition markAll (src : source) (ids : list Z) : gmap Z source :=
  fold_left (fun m id => <[id := src]> m) ids ∅.

Definition num (n : nat) : string := Semantic.decimal n.

Definition pluralize (word : string) (count : nat) : string :=
  if (count =? 1)%nat then word else word +:+ "s".

Definition foundStatus (n : nat) : string :=
  "Found " +:+ num n +:+ " " +:+ pluralize "tab" n +:+ ".".

Definition foundAllStatus (found total : nat) : string :=
  "Found " +:+ num found +:+ " " +:+ pluralize "tab" found
    +:+ " (searched all " +:+ num total +:+ " tabs).".

Definition abortedStatus (found i total : nat) : string :=
  "Search aborted. Found " +:+ num found +:+ " tabs (searched "
    +:+ num (i + 1) +:+ "/" +:+ num total +:+ ")".

Definition progressStatus (i total found : nat) : string :=
  "Aggressive search: " +:+ num (i + 1) +:+ "/" +:+ num total
    +:+ " tabs | Found " +:+ num found +:+ " matches".

Definition scanningStatus (i total : nat) (title : string) : string :=
  "Aggressive search: " +:+ num (i + 1) +:+ "/" +:+ num total
    +:+ " tabs | Scanning: " +:+ dquote +:+ slice0 30 title +:+ "..."
    +:+ dquote.

Definition startStatus (total : nat) : string :=
  "Aggressive search: 0/" +:+ num total +:+ " tabs searched...".

Section WithEnv.

(** The browser around one search. *)
Variable parseURL : string -> option parsedUrl.
Variable openTabs : list browserTab.
(** The text [extractFullPageText] obtains for a tab. *)
Variable pageText : browserTab -> string.
(** [signal.aborted] as read at the top of turn [i] of the aggressive
    loop, after the lexical scorer in the normal flow, and when the
    model's answer arrives.  The signal is set by [handleEndSearch]
    only, which on its own clears the list, the status and the stored
    session; that handler is not part of the functions below.  With a
    flag set they give what the search itself still writes and
    returns, not the state the popup ends in. *)
Variable abortedAtTurn : nat -> bool.
Variable abortedAfterFallback : bool.
Variable abortedAtAnswer : bool.
(** The model's part of [tryOnDeviceSelectFromSummaries]. *)
Variable reply : Semantic.aiReply.

Variable aggressiveSearchEnabled : bool.
Variable aiOnlyEnabled : bool.

Definition isScriptableUrl (url : string) : bool :=
  match parseURL url with
  | None => false
  | Some u =>
      if negb (String.eqb (protocol u) "http:")
         && negb (String.eqb (protocol u) "https:") then false
      else if String.eqb (hostname u) "chrome.google.com"
              && startsWith (pathname u) "/webstore" then false
      else if String.eqb (hostname u) "chromewebstore.google.com" then false
      else if String.eqb (hostname u) "chrome.google.com" then false
      else if String.eqb (protocol u) "chrome-extension:" then false
      else if startsWith (protocol u) "chrome" then false
      else true
  end.

(** *** The aggressive (tab-by-tab) search *)

Import Lexical.

(** One turn of the first [for (const word of words)] loop: title,
    tags and URL only. *)
Definition quickWord (title tags urlParts : string) (t : tally)
  (word : string) : tally :=
  if (String.length word <? 3)%nat then t
  else
    let titleMatch := fieldMatch title word in
    let tagMatch := fieldMatch tags word in
    let urlMatch := fieldMatch urlParts word in
    bump urlMatch 1 "url"
      (bump tagMatch 7 "tags"
         (bump titleMatch 5 "title"
            (noteWord (titleMatch || tagMatch || urlMatch) word t))).

(** One turn of the loop over the full page text. *)
Definition contentWord (fullTextLower : string) (t : tally) (word : string)
  : tally :=
  if (String.length word <? 3)%nat then t
  else
    let contentMatch := fieldMatch fullTextLower word in
    bump contentMatch 4 "content" (noteWord contentMatch word t).

Definition aggressiveReason (t : tally) : string :=
  "Matched " +:+ dquote
    +:+ join (dquote +:+ ", " +:+ dquote) (matchedWords t)
    +:+ dquote +:+ " in " +:+ join ", " (uniq (matchedIn t)).

(** The local variables of the loop together with the world. *)
Record progress := {
  found : list Z;
  reasons : gmap Z string;
  scores : gmap Z Z;
  now : world
}.

(** Pushing a match: record it, render the list so far, report. *)
Definition publish (i : nat) (tab : browserTab) (t : tally) (p : progress)
  : progress :=
  let found' := found p ++ [bt_id tab] in
  {| found := found';
     reasons := <[bt_id tab := aggressiveReason t]> (reasons p);
     scores := <[bt_id tab := score t]> (scores p);
     now :=
       setStatus
         (progressStatus i (List.length openTabs) (List.length found'))
         (renderResultsList found'
            (setSources (markAll Keyword found') (now p))) |}.

Definition report (msg : string) (p : progress) : progress :=
  {| found := found p; reasons := reasons p; scores := scores p;
     now := setStatus msg (now p) |}.

(** The progress line written every tenth tab. *)
Definition everyTenth (i : nat) (p : progress) : progress :=
  if ((i + 1) mod 10 =? 0)%nat
  then report (progressStatus i (List.length openTabs)
                 (List.length (found p))) p
  else p.

(** The body of the loop for tab [i], when a summary exists and the
    search has not been aborted. *)
Definition searchTab (words : list string) (i : nat) (tab : browserTab)
  (summary : tabSummary) (p : progress) : progress :=
  let title := toLowerCase (tab_title summary) in
  let tags := join " " (map toLowerCase (tab_tags summary)) in
  let urlParts := urlPartsOf parseURL (tab_url summary) in
  let t := fold_left (quickWord title tags urlParts) words
             {| score := 0; matchedIn := []; matchedWords := [] |} in
  if minScore words <=? score t then publish i tab t p
  else
    let p :=
      if isScriptableUrl (bt_url tab) then
        let p := report (scanningStatus i (List.length openTabs)
                           (bt_title tab)) p in
        let fullText := pageText tab in
        if truthy fullText then
          let t := fold_left (contentWord (toLowerCase fullText)) words t in
          if minScore words <=? score t then publish i tab t p else p
        else p
      else p in
    everyTenth i p.

(** [for (let i = 0; i < tabs.length; i++)]: [rest] holds the tabs
    from index [i] on.  A tab without summary is skipped before the
    abort test; an abort leaves the loop. *)
Fixpoint aggressiveLoop (summaries : list tabSummary)
  (words : list string) (i : nat) (rest : list browserTab) (p : progress)
  : progress :=
  match rest with
  | [] => p
  | tab :: rest' =>
      match List.find (fun s => Z.eqb (tab_id s) (bt_id tab)) summaries with
      | None => aggressiveLoop summaries words (S i) rest' p
      | Some summary =>
          if abortedAtTurn i
          then report (abortedStatus (List.length (found p)) i
                         (List.length openTabs)) p
          else aggressiveLoop summaries words (S i) rest'
                 (searchTab words i tab summary p)
      end
  end.

(** The aggressive branch, from [extractKeywords] to [return results]. *)
Definition aggressiveSearch (summaries : list tabSummary)
  (searchQuery : string) (w : world) : list Z * world :=
  let words := Keywords.extractKeywords searchQuery in
  let p0 := {| found := []; reasons := ∅; scores := ∅;
               now := setStatus (startStatus (List.length openTabs)) w |} in
  let p := aggressiveLoop summaries words 0 openTabs p0 in
  let w := setStatus
             (foundAllStatus (List.length (found p)) (List.length openTabs))
             (now p) in
  (found p, setSources (markAll Keyword (found p)) w).

(** *** The normal flow *)

(** The callback given to [aiPromise.then] once the lexical results
    have been returned. *)
Definition onAiAnswer (fallbackIds idsFromAI : list Z) (w : world) : world :=
  if abortedAtAnswer then w
  else
    match idsFromAI with
    | [] => w
    | _ =>
        let finalIds := idsFromAI in
        let w := setSources (markAll Ai finalIds) w in
        if bool_decide (finalIds = fallbackIds)
        then setStatus (foundStatus (List.length finalIds)) w
        else
          let w := renderResultsList finalIds w in
          let w :=
            match aiSearchSession w with
            | Some s =>
                setSession
                  (Some {| query := query s; tabIds := finalIds |}) w
            | None => w
            end in
          setStatus (foundStatus (List.length finalIds)) w
    end.

(** What [selectFromSummariesWithAIOrFallback] hands back: the ids it
    returns, the world it leaves, and, when the model's answer is still
    awaited, the lexical ids its callback will compare against. *)
Record selection := {
  selected : list Z;
  after : world;
  awaiting : option (list Z)
}.

Definition idsFromAI (summaries : list tabSummary) (searchQuery : string)
  : list Z :=
  results
    (Semantic.tryOnDeviceSelectFromSummaries summaries
       (Keywords.extractKeywords searchQuery) reply
       {| results := []; reasonsMap := ∅; scoresMap := ∅ |}).

Definition selectFromSummariesWithAIOrFallback
  (summaries : list tabSummary) (searchQuery : string) (w : world)
  : selection :=
  let hashtagQuery := TagSearch.parseHashtagQuery searchQuery in
  if TagSearch.isHashtagSearch hashtagQuery then
    let ids := results (TagSearch.performTagSearch summaries
                          (TagSearch.tags hashtagQuery)) in
    {| selected := ids; after := setSources (markAll Keyword ids) w;
       awaiting := None |}
  else if aggressiveSearchEnabled then
    let '(ids, w) := aggressiveSearch summaries searchQuery w in
    {| selected := ids; after := w; awaiting := None |}
  else if aiOnlyEnabled then
    match idsFromAI summaries searchQuery with
    | [] => {| selected := []; after := w; awaiting := None |}
    | ids => {| selected := ids; after := setSources (markAll Ai ids) w;
                awaiting := None |}
    end
  else
    let fallbackIds :=
      results (performFallbackSearch parseURL summaries searchQuery None) in
    if abortedAfterFallback then
      {| selected := []; after := w; awaiting := None |}
    else
      match fallbackIds with
      | _ :: _ =>
          {| selected := fallbackIds;
             after := setSources (markAll Keyword fallbackIds) w;
             awaiting := Some fallbackIds |}
      | [] =>
          match idsFromAI summaries searchQuery with
          | [] => {| selected := []; after := w; awaiting := None |}
          | ids => {| selected := ids;
                      after := setSources (markAll Ai ids) w;
                      awaiting := None |}
          end
      end.

(** The statements of [handleSearch] after the selection returned;
    [aborted] is [searchSignal.aborted] at that point. *)
Definition hasSource (src : source) (ids : list Z) (w : world) : bool :=
  existsb (fun id => bool_decide (tabResultSources w !! id = Some src)) ids.

Definition countSource (src : source) (ids : list Z) (w : world) : nat :=
  List.length
    (List.filter
       (fun id => bool_decide (tabResultSources w !! id = Some src)) ids).

Definition afterSelection (aborted : bool) (searchQuery : string)
  (selectedTabIds : list Z) (w : world) : world :=
  if aborted then w
  else
    match selectedTabIds with
    | [] =>
        setSession None
          (renderResultsList [] (setStatus "No matching tabs found." w))
    | _ =>
        let w := renderResultsList selectedTabIds w in
        let w := setSession
                   (Some {| query := searchQuery;
                            tabIds := selectedTabIds |}) w in
        let n := List.length selectedTabIds in
        if hasSource Ai selectedTabIds w && hasSource Keyword selectedTabIds w
        then setStatus
               ("Found " +:+ num n +:+ " " +:+ pluralize "tab" n +:+ " ("
                  +:+ num (countSource Ai selectedTabIds w) +:+ " AI, "
                  +:+ num (countSource Keyword selectedTabIds w)
                  +:+ " keyword).") w
        else if hasSource Keyword selectedTabIds w
        then setStatus "Searching with AI..." w
        else setStatus (foundStatus n) w
    end.

(** The reset at the head of [handleSearch], skipped when a stored
    search is restored: [resultsUl.innerHTML = ''] and
    [status.textContent = '']. *)
Definition clearOldResults (isRestore : bool) (w : world) : world :=
  if isRestore then w else setStatus "" (renderResultsList [] w).

(** A search from the call of the selection in [handleSearch] on, with
    the model's answer, when awaited, arriving after [handleSearch] has
    shown and stored the lexical results.  [w] is the state at that
    call: the one [clearOldResults] left. *)
Definition search (summaries : list tabSummary) (searchQuery : string)
  (abortedOnReturn : bool) (w : world) : world :=
  let sel := selectFromSummariesWithAIOrFallback summaries searchQuery w in
  let w := afterSelection abortedOnReturn searchQuery (selected sel)
             (after sel) in
  match awaiting sel with
  | Some fallbackIds =>
      onAiAnswer fallbackIds (idsFromAI summaries searchQuery) w
  | None => w
  end.

End WithEnv.

End Reconciler.

(** ** Sample data used by the concrete checks *)

Module Examples.

Import Semantic Reconciler.

Definition mkTab (id : Z) (title : string) (tabTags : list string)
  : tabSummary :=
  {| tab_id := id; tab_title := title; tab_url := "";
     tab_summary := ""; tab_tags := tabTags |}.

Definition helloDocs : list tabSummary :=
  [ mkTab 11 "Hello World guide" ["Greeting"];
    mkTab 22 "Food for thought: essays" ["writing"] ].

(** Quotes one text of the title and one text found nowhere. *)
Definition mixedQuotes : candidate :=
  {| ref := VStr "tab1"; relevanceScore := VNum 10;
     reason := VStr "Keywords: 'hello world' in title, 'zzzzz' in tags" |}.

(** Quotes only a text found nowhere. *)
Definition badQuote : candidate :=
  {| ref := VStr "tab1"; relevanceScore := VNum 10;
     reason := VStr "Keywords: 'zzzzz' in title of the hello page" |}.

(** Quotes only texts shorter than 5 characters. *)
Definition shortQuotes : candidate :=
  {| ref := VStr "tab1"; relevanceScore := VNum 10;
     reason := VStr "Keywords: 'hell' in title of the hello 'guid'" |}.

(** A document without title, and a reason that quotes the
    placeholder sent in its place. *)
Definition untitledDocs : list tabSummary := [ mkTab 7 "" ["misc"] ].

Definition quotesPlaceholder : candidate :=
  {| ref := VStr "tab1"; relevanceScore := VNum 10;
     reason := VStr "Keywords: 'untitled' names this page of notes" |}.

Definition foodDocs : list tabSummary :=
  [ mkTab 1 "Food markets" [];
    mkTab 2 "Street food tour" [];
    mkTab 3 "Ice cream recipes" ["dessert"] ].

(** The model keeps the second document and adds the third. *)
Definition foodReply : aiReply :=
  Results
    [ ItemObj {| ref := VStr "tab2"; relevanceScore := VNum 9;
                 reason := VStr "Keywords: 'food' in title: 'street food tour'" |};
      ItemObj {| ref := VStr "tab3"; relevanceScore := VNum 8;
                 reason := VStr "Semantic: 'ice cream' in title is a kind of food" |} ].

(** The model names the second document twice. *)
Definition repeatReply : aiReply :=
  Results
    [ ItemObj {| ref := VStr "tab2"; relevanceScore := VNum 9;
                 reason := VStr "Essays that say hello to new readers" |};
      ItemObj {| ref := VStr "tab1"; relevanceScore := VNum 8;
                 reason := VStr "A guide that starts with hello" |};
      ItemObj {| ref := VStr "tab2"; relevanceScore := VNum 7;
                 reason := VStr "The hello essay collection" |} ].

Definition noUrl : string -> option parsedUrl := fun _ => None.

Definition emptyWorld : world :=
  {| rendered := []; status := ""; tabResultSources := ∅;
     aiSearchSession := None |}.

Definition twoTabs : list browserTab :=
  [ {| bt_id := 11; bt_title := "Hello World guide"; bt_url := "" |};
    {| bt_id := 22; bt_title := "Food for thought: essays"; bt_url := "" |} ].

(** A text of [n] characters. *)
Fixpoint filler (n : nat) : string :=
  match n with
  | O => EmptyString
  | S n' => String "a" (filler n')
  end.

Definition longPage : Summarize.extracted :=
  {| Summarize.e_id := 1; Summarize.e_title := "t"; Summarize.e_url := "u";
     Summarize.e_text := filler 501 |}.

(** A parse result whose [summary] has 600 characters. *)
Definition longAnswer : string -> option Summarize.parsedSummary :=
  fun _ => Some {| Summarize.p_summary := Summarize.Text (filler 600);
                   Summarize.p_tags := Some ["a"; "b"; "c"; "d"] |}.

(** A parse result whose [summary] is an array of 501 strings of two
    characters. *)
Definition arrayAnswer : string -> option Summarize.parsedSummary :=
  fun _ => Some {| Summarize.p_summary :=
                     Summarize.Foreign (Summarize.FArray (repeat "ab" 501%nat));
                   Summarize.p_tags := Some ["a"; "b"; "c"] |}.

End Examples.

(** ** Character tests on whole strings *)

Module Chars.

(** Every character of [s] passes [p]. *)
Fixpoint forallChars (p : ascii -> bool) (s : string) : bool :=
  match s with
  | EmptyString => true
  | String c s' => p c && forallChars p s'
  end.

Definition visibleChar (c : ascii) : bool := negb (isSpace c).

Definition lowerCaseChar (c : ascii) : bool :=
  Ascii.eqb (lowerChar c) c.

End Chars.

(** ** Search history ([logSearchHistory], [removeFromHistory],
    [loadHistory]) *)

Module History.

Record historyEntry := {
  h_query : string;
  h_tabIds : list Z;
  h_at : Z
}.

(** [searchHistoryByDate[key]] read through
    [Array.isArray(x) ? x : []]. *)
Definition dayOf (searchHistoryByDate : gmap string (list historyEntry))
  (key : string) : list historyEntry :=
  default [] (searchHistoryByDate !! key).

Definition otherQuery (q : string) (item : historyEntry) : bool :=
  negb (String.eqb (h_query item) q).

(** [key] is the day computed from the clock, [stamp] is
    [Date.now()]. *)
Definition logSearchHistory (key searchQuery : string) (ids : list Z)
  (stamp : Z) (searchHistoryByDate : gmap string (list historyEntry))
  : gmap string (list historyEntry) :=
  let entry :=
    {| h_query := searchQuery; h_tabIds := ids; h_at := stamp |} in
  let arr := dayOf searchHistoryByDate key in
  let filteredArr := entry :: List.filter (otherQuery searchQuery) arr in
  <[key := firstn 5 filteredArr]> searchHistoryByDate.

Definition removeFromHistory (todayKey queryToRemove : string)
  (searchHistoryByDate : gmap string (list historyEntry))
  : gmap string (list historyEntry) :=
  let arr := dayOf searchHistoryByDate todayKey in
  <[todayKey := List.filter (otherQuery queryToRemove) arr]>
    searchHistoryByDate.

(** The [historyItems] shown as chips. *)
Definition loadHistory (todayKey : string)
  (searchHistoryByDate : gmap string (list historyEntry))
  : list historyEntry :=
  firstn 5 (dayOf searchHistoryByDate todayKey).

End History.

(** ** Summary cache ([getExistingSummaries] in the popup, the
    listeners of the service worker)

    [tabSummaries] is keyed by [String(tab.id)]; the service worker
    reads the key back with [parseInt], so the keys are modelled as the
    ids themselves. *)

Module SummaryCache.

Import Reconciler.

Record cached := {
  c_url : string;
  c_summary : string;
  c_tags : option (list string);
  c_timestamp : Z
}.

(** [24 * 60 * 60 * 1000] *)
Definition maxAgeMs : Z := 24 * 60 * 60 * 1000.

Definition fresh (now : Z) (e : cached) : bool :=
  now - c_timestamp e <? maxAgeMs.

(** The [chrome.tabs.onUpdated] (navigation completed with a new URL)
    and [chrome.tabs.onRemoved] listeners. *)
Definition forget (tabId : Z) (tabSummaries : gmap Z cached)
  : gmap Z cached :=
  match tabSummaries !! tabId with
  | Some _ => delete tabId tabSummaries
  | None => tabSummaries
  end.

(** [currentTabIds.has(tabId) && (now - summary.timestamp) < maxAgeMs] *)
Definition keep (currentTabIds : list Z) (now : Z) (kv : Z * cached)
  : bool :=
  bool_decide (kv.1 ∈ currentTabIds) && fresh now kv.2.

(** The hourly [cleanup-summaries] alarm: the cleaned object is
    written back only when it has fewer keys. *)
Definition cleanup (currentTabIds : list Z) (now : Z)
  (tabSummaries : gmap Z cached) : gmap Z cached :=
  let cleanedSummaries :=
    filter (fun kv => keep currentTabIds now kv = true) tabSummaries in
  if bool_decide (size cleanedSummaries <> size tabSummaries)
  then cleanedSummaries
  else tabSummaries.

Section WithUrl.

Variable parseURL : string -> option parsedUrl.

(** The condition under which a cached summary is used. *)
Definition usable (t : browserTab) (now : Z) (e : cached) : bool :=
  String.eqb (c_url e) (bt_url t) && fresh now e && truthy (c_summary e).

Definition fallbackSummary (t : browserTab) : string :=
  let both := trim (bt_title t +:+ " " +:+ bt_url t) in
  if isScriptableUrl parseURL (bt_url t)
  then Semantic.orElse both "Loading..."
  else Semantic.orElse both (bt_url t).

Definition fallbackRecord (t : browserTab) : tabSummary :=
  {| tab_id := bt_id t; tab_title := bt_title t; tab_url := bt_url t;
     tab_summary := fallbackSummary t;
     tab_tags :=
       Summarize.generateFallbackTags parseURL (bt_title t) (bt_url t) |}.

(** The body of [for (const t of tabs)]. *)
Definition summaryFor (tabSummaries : gmap Z cached) (now : Z)
  (t : browserTab) : tabSummary :=
  match tabSummaries !! bt_id t with
  | Some e =>
      if usable t now e
      then {| tab_id := bt_id t; tab_title := bt_title t;
              tab_url := bt_url t; tab_summary := c_summary e;
              tab_tags := default [] (c_tags e) |}
      else fallbackRecord t
  | None => fallbackRecord t
  end.

Definition getExistingSummaries (tabs : list browserTab)
  (tabSummaries : gmap Z cached) (now : Z) : list tabSummary :=
  map (summaryFor tabSummaries now) tabs.

End WithUrl.

End SummaryCache.

(** ** Result list ([renderResultsPage]) *)

Module Render.

Import Reconciler.

Definition RESULTS_PER_PAGE : nat := 10.

(** [ids.indexOf(id)] *)
Fixpoint indexOf (ids : list Z) (id : Z) : Z :=
  match ids with
  | [] => -1
  | x :: ids' =>
      if Z.eqb x id then 0
      else match indexOf ids' id with
           | Z.neg _ => -1
           | i => i + 1
           end
  end.

Definition byIndex (orderedIds : list Z) (y x : browserTab) : bool :=
  indexOf orderedIds (bt_id y) <=? indexOf orderedIds (bt_id x).

Section WithCollator.

(** [collator.compare(a, b) <= 0] *)
Variable collate : string -> string -> bool.

Definition byTitle (y x : browserTab) : bool :=
  collate (bt_title y) (bt_title x).

(** The tabs shown on the pages up to [currentResultsPage], and
    whether the "show more" button is displayed. *)
Definition renderResultsPage (allTabs : list browserTab)
  (selectedIds : list Z) (preserveOrder : bool)
  (currentResultsPage : nat) : list browserTab * bool :=
  let selectedTabs :=
    List.filter (fun t => bool_decide (bt_id t ∈ selectedIds)) allTabs in
  let sorted :=
    if preserveOrder
    then sortStable (byIndex selectedIds) selectedTabs
    else sortStable byTitle selectedTabs in
  let endIdx := (currentResultsPage * RESULTS_PER_PAGE)%nat in
  (firstn endIdx sorted, (endIdx <? List.length sorted)%nat).

End WithCollator.

End Render.

(** ** Invariants used in the statements below *)

Module Invariants.

Import Reconciler.

(** The id list handed to [renderResultsList] and the stored session
    agree: no session and an empty list, or a session for the query
    holding that list, which is not empty. *)
Definition consistent (searchQuery : string) (w : world) : Prop :=
  match aiSearchSession w with
  | Some s => query s = searchQuery /\ tabIds s = rendered w
              /\ rendered w <> []
  | None => rendered w = []
  end.

End Invariants.

(** ** Invariant of the aggressive loop *)

Module LoopInvariant.

Import Reconciler.

(** Every id found so far belongs to an open tab that has a summary,
    and has a stored reason and a stored score that reaches the
    threshold. *)
Definition recorded (summaries : list tabSummary)
  (openTabs : list browserTab) (words : list string) (p : progress)
  : Prop :=
  forall id, In id (found p) ->
    (exists sc, scores p !! id = Some sc /\ Lexical.minScore words <= sc)
    /\ is_Some (reasons p !! id)
    /\ In id (map bt_id openTabs)
    /\ In id (map tab_id summaries).

End LoopInvariant.

(* ------------------------------------------------------------------ *)
(** * Properties *)

(** *** Facts about the string primitives *)

Section StringFacts.

Lemma lowerChar_isSpace c : isSpace (lowerChar c) = isSpace c.
Proof. by destruct c as [[] [] [] [] [] [] [] []]. Qed.

Lemma hasVisible_toLowerCase s : hasVisible (toLowerCase s) = hasVisible s.
Proof.
  induction s as [|c s IH]; [done|].
  cbn [toLowerCase hasVisible]. by rewrite lowerChar_isSpace, IH.
Qed.

Lemma append_truthy cur c : truthy (cur +:+ String c EmptyString) = true.
Proof. by destruct cur. Qed.

(** Splitting yields a non-empty piece as soon as the piece being read
    is non-empty or a visible character is still to come.  Inside a
    separator run the piece being read is empty. *)
Lemma splitRun_truthy s : forall cur inSep,
  (inSep = true -> cur = EmptyString) ->
  truthy cur || hasVisible s = true ->
  List.filter truthy (splitRun isSpace s cur inSep) <> [].
Proof.
  induction s as [|c s IH]; intros cur inSep Hinv H.
  - cbn in *. rewrite orb_false_r in H. by rewrite H.
  - cbn [splitRun hasVisible] in *.
    destruct (isSpace c) eqn:Hc; cbn [negb orb] in H.
    + destruct inSep.
      * rewrite (Hinv eq_refl) in H. cbn in H.
        apply IH; [done|]. by rewrite H.
      * cbn [List.filter]. destruct (truthy cur) eqn:Hcur; [done|].
        cbn in H. apply IH; [done|]. by rewrite H.
    + apply IH; [done|]. by rewrite append_truthy.
Qed.

Lemma split_truthy s :
  hasVisible s = true -> List.filter truthy (split isSpace s) <> [].
Proof. intros H. apply splitRun_truthy; [done|]. by rewrite H. Qed.

End StringFacts.

(** ** Keyword extraction *)

Section KeywordFacts.

Import Keywords.

Lemma words_nonempty query :
  hasVisible query = true -> words query <> [].
Proof.
  intros H. unfold words. apply split_truthy.
  by rewrite hasVisible_toLowerCase.
Qed.

Lemma extractKeywords_cases query :
  (List.filter meaningful (words query) = []
   /\ extractKeywords query = words query)
  \/ (List.filter meaningful (words query) <> []
      /\ extractKeywords query = List.filter meaningful (words query)).
Proof.
  unfold extractKeywords.
  destruct (List.filter meaningful (words query)) eqn:E; [by left|by right].
Qed.

(** C8.  A query with at least one character that is not white space
    always yields at least one term; when the stop-word and length
    filter removes every token, the result is the unfiltered list of
    lower-cased tokens. *)
Theorem extractKeywords_never_empty query :
  hasVisible query = true ->
  extractKeywords query <> []
  /\ (List.filter meaningful (words query) = [] ->
      extractKeywords query = words query)
  /\ (forall w, In w (extractKeywords query) -> w <> EmptyString).
Proof.
  intros Hvis. pose proof (words_nonempty query Hvis) as Hw.
  assert (Hne : forall w, In w (words query) -> w <> EmptyString).
  { intros w Hin. unfold words in Hin. apply filter_In in Hin as [_ Ht].
    by destruct w. }
  destruct (extractKeywords_cases query) as [[Hf ->]|[Hf ->]].
  - split; [done|]. split; [done|]. exact Hne.
  - split; [done|]. split; [intros Hf'; by rewrite Hf' in Hf|].
    intros w Hin. apply filter_In in Hin as [Hin _]. by apply Hne.
Qed.

Lemma extractKeywords_never_empty_witness :
  hasVisible "  is THE  " = true
  /\ Keywords.extractKeywords "  is THE  " = ["is"; "the"].
Proof.
  split; [reflexivity|].
  pose proof (extractKeywords_never_empty "  is THE  " eq_refl) as [_ [H _]].
  rewrite H; reflexivity.
Defined.

End KeywordFacts.

(** ** Substrings *)

Section SubstringFacts.

Lemma lowerChar_idem c : lowerChar (lowerChar c) = lowerChar c.
Proof. by destruct c as [[] [] [] [] [] [] [] []]. Qed.

Lemma toLowerCase_idem s : toLowerCase (toLowerCase s) = toLowerCase s.
Proof.
  induction s as [|c s IH]; [done|].
  cbn [toLowerCase]. by rewrite lowerChar_idem, IH.
Qed.

Lemma append_cons c (a b : string) : String c a +:+ b = String c (a +:+ b).
Proof. reflexivity. Qed.

Lemma append_nil_l (s : string) : EmptyString +:+ s = s.
Proof. reflexivity. Qed.

Lemma append_nil_r s : s +:+ EmptyString = s.
Proof.
  induction s as [|c s IH]; [done|]. by rewrite append_cons, IH.
Qed.

Lemma append_assoc (a b c : string) : (a +:+ b) +:+ c = a +:+ b +:+ c.
Proof.
  induction a as [|x a IH]; [done|]. by rewrite !append_cons, IH.
Qed.

Lemma length_append (a b : string) :
  String.length (a +:+ b) = (String.length a + String.length b)%nat.
Proof.
  induction a as [|x a IH]; [done|].
  rewrite append_cons. cbn [String.length]. by rewrite IH.
Qed.

Lemma prefix_app p s :
  String.prefix p s = true <-> exists post, s = p +:+ post.
Proof.
  revert s. induction p as [|a p IH]; intros s; cbn.
  - destruct s; split; eauto.
  - destruct s as [|b s]; [split; [done|by intros [? ?]]|].
    cbn [String.prefix].
    destruct (ascii_dec a b) as [->|Hne].
    + rewrite IH. split; intros [post H]; exists post.
      * by rewrite append_cons, H.
      * rewrite append_cons in H. by injection H.
    + split; [done|]. intros [post H]. rewrite append_cons in H.
      injection H. congruence.
Qed.

Lemma includes_Substring hay needle :
  includes hay needle = true <-> Substring needle hay.
Proof.
  unfold Substring. split.
  - induction hay as [|c hay IH]; cbn [includes];
      rewrite orb_true_iff; intros [H|H].
    + apply prefix_app in H as [post ->]. by exists EmptyString, post.
    + done.
    + apply prefix_app in H as [post ->]. by exists EmptyString, post.
    + destruct (IH H) as (pre & post & ->). by exists (String c pre), post.
  - intros (pre & post & ->). induction pre as [|c pre IH].
    + rewrite append_nil_l.
      assert (Hp : String.prefix needle (needle +:+ post) = true)
        by (apply prefix_app; eauto).
      destruct (needle +:+ post); cbn [includes]; by rewrite Hp.
    + rewrite append_cons. cbn [includes]. by rewrite IH, orb_true_r.
Qed.

Lemma includes_refl s : includes s s = true.
Proof.
  apply includes_Substring. exists EmptyString, EmptyString.
  by rewrite append_nil_r.
Qed.

End SubstringFacts.

(** ** Hashtag search *)

Section TagSearchFacts.

Import TagSearch.

Lemma tagHit_spec tabTag searchTag :
  tagHit tabTag searchTag = true <->
  tabTag = searchTag \/ Substring searchTag tabTag
  \/ Substring tabTag searchTag.
Proof.
  unfold tagHit. rewrite !orb_true_iff, String.eqb_eq, !includes_Substring.
  tauto.
Qed.

Lemma docMatchesb_spec s q :
  toLowerCase q = q -> docMatchesb s q = true <-> docMatches s q.
Proof.
  intros Hq. unfold docMatchesb, docMatches, matchesCI.
  rewrite existsb_exists. setoid_rewrite in_map_iff. rewrite Hq. split.
  - intros (x & (t & <- & Hin) & Hhit). exists t. split; [done|].
    by apply tagHit_spec.
  - intros (t & Hin & Hm). exists (toLowerCase t). split; [eauto|].
    by apply tagHit_spec.
Qed.

(** The loop over the query tags keeps the hit tags in order and adds
    10 for each. *)
Lemma matchTags_fold tabTags searchTags : forall matched sc,
  fold_left
    (fun '(matchedTags, score) searchTag =>
       if existsb (fun tabTag => tagHit tabTag searchTag) tabTags
       then (matchedTags ++ [searchTag], score + 10)
       else (matchedTags, score))
    searchTags (matched, sc)
  = (matched
       ++ List.filter
            (fun q => existsb (fun tabTag => tagHit tabTag q) tabTags)
            searchTags,
     sc + 10 * Z.of_nat
            (List.length
               (List.filter
                  (fun q => existsb (fun tabTag => tagHit tabTag q) tabTags)
                  searchTags))).
Proof.
  induction searchTags as [|q qs IH]; intros matched sc; cbn [fold_left List.filter].
  - rewrite app_nil_r. f_equal. cbn. lia.
  - destruct (existsb _ tabTags); rewrite IH.
    + rewrite <- app_assoc. cbn [app List.length]. f_equal. lia.
    + done.
Qed.

Lemma matchTags_spec s searchTags :
  matchTags (map toLowerCase (tab_tags s)) searchTags
  = (List.filter (docMatchesb s) searchTags,
     10 * Z.of_nat (List.length (List.filter (docMatchesb s) searchTags))).
Proof. unfold matchTags. by rewrite matchTags_fold. Qed.

Lemma filter_nil_existsb {A} (f : A -> bool) l :
  List.filter f l = [] <-> existsb f l = false.
Proof.
  induction l as [|x l IH]; cbn; [done|].
  destruct (f x); cbn; [split; done|exact IH].
Qed.

Lemma tagStep_hit searchTags acc s :
  anyHit searchTags s = true ->
  tagStep searchTags acc s
  = {| results := results acc ++ [tab_id s];
       reasonsMap :=
         <[tab_id s := tagReason (List.filter (docMatchesb s) searchTags)]>
           (reasonsMap acc);
       scoresMap :=
         <[tab_id s :=
             10 * Z.of_nat
                    (List.length (List.filter (docMatchesb s) searchTags))]>
           (scoresMap acc) |}.
Proof.
  intros H. unfold tagStep. rewrite matchTags_spec.
  destruct (List.filter (docMatchesb s) searchTags) eqn:E; [|done].
  apply filter_nil_existsb in E. unfold anyHit in H. congruence.
Qed.

Lemma tagStep_miss searchTags acc s :
  anyHit searchTags s = false -> tagStep searchTags acc s = acc.
Proof.
  intros H. unfold tagStep. rewrite matchTags_spec.
  apply filter_nil_existsb in H. by rewrite H.
Qed.

Lemma tagSearch_results searchTags l : forall acc,
  results (fold_left (tagStep searchTags) l acc)
  = results acc ++ map tab_id (List.filter (anyHit searchTags) l).
Proof.
  induction l as [|s l IH]; intros acc; cbn [fold_left List.filter].
  - by rewrite app_nil_r.
  - rewrite IH. destruct (anyHit searchTags s) eqn:E.
    + rewrite tagStep_hit by done. cbn [results map].
      by rewrite <- app_assoc.
    + by rewrite tagStep_miss.
Qed.

Lemma tagSearch_scores_other searchTags l id : forall acc,
  ~ In id (map tab_id l) ->
  scoresMap (fold_left (tagStep searchTags) l acc) !! id
  = scoresMap acc !! id.
Proof.
  induction l as [|s l IH]; intros acc Hnotin; cbn [fold_left]; [done|].
  cbn [map] in Hnotin. rewrite IH by (intros H; apply Hnotin; by right).
  destruct (anyHit searchTags s) eqn:E.
  - rewrite tagStep_hit by done. cbn [scoresMap].
    apply lookup_insert_ne. intros Heq. apply Hnotin. by left.
  - by rewrite tagStep_miss.
Qed.

Lemma tagSearch_scores searchTags l s : forall acc,
  NoDup (map tab_id l) -> In s l -> anyHit searchTags s = true ->
  scoresMap (fold_left (tagStep searchTags) l acc) !! tab_id s
  = Some (10 * Z.of_nat
            (List.length (List.filter (docMatchesb s) searchTags))).
Proof.
  induction l as [|x l IH]; intros acc Hnd Hin Hhit; [done|].
  cbn [map] in Hnd. apply NoDup_cons in Hnd as [Hx Hnd].
  cbn [fold_left]. destruct Hin as [->|Hin].
  - rewrite tagSearch_scores_other.
    + rewrite tagStep_hit by done. cbn [scoresMap]. apply lookup_insert_eq.
    + by rewrite <- list_elem_of_In.
  - by apply IH.
Qed.

Lemma uniq_NoDup_aux xs : forall seen,
  NoDup xs -> (forall x, In x xs -> ~ In x seen) -> dedup seen xs = xs.
Proof.
  induction xs as [|x xs IH]; intros seen Hnd Hdisj; [done|].
  apply NoDup_cons in Hnd as [Hx Hnd]. cbn [dedup].
  destruct (existsb (String.eqb x) seen) eqn:E.
  - apply existsb_exists in E as (y & Hy & Heq).
    apply String.eqb_eq in Heq as <-. exfalso. apply (Hdisj x); [by left|done].
  - f_equal. apply IH; [done|]. intros y Hy [<-|Hs].
    + apply Hx. by apply list_elem_of_In.
    + apply (Hdisj y); [by right|done].
Qed.

Lemma uniq_NoDup xs : NoDup xs -> uniq xs = xs.
Proof. intros H. apply uniq_NoDup_aux; [done|]. by intros x _ []. Qed.

End TagSearchFacts.

Section TagSearchClaims.

Import TagSearch.

Lemma NoDup_map_inj {A B} (f : A -> B) l x y :
  NoDup (map f l) -> In x l -> In y l -> f x = f y -> x = y.
Proof.
  induction l as [|a l IH]; intros Hnd Hx Hy Heq; [done|].
  cbn [map] in Hnd. apply NoDup_cons in Hnd as [Ha Hnd].
  rewrite list_elem_of_In in Ha.
  destruct Hx as [->|Hx], Hy as [->|Hy]; [done| | |by apply IH].
  - exfalso. apply Ha. rewrite Heq. by apply in_map.
  - exfalso. apply Ha. rewrite <- Heq. by apply in_map.
Qed.

Lemma NoDup_List_filter {A} (f : A -> bool) l :
  NoDup l -> NoDup (List.filter f l).
Proof.
  induction l as [|a l IH]; intros Hnd; [done|].
  apply NoDup_cons in Hnd as [Ha Hnd]. cbn [List.filter].
  destruct (f a); [|by apply IH].
  apply NoDup_cons. split; [|by apply IH].
  rewrite list_elem_of_In, filter_In, <- list_elem_of_In. tauto.
Qed.

(** Every tag the parser hands to the search is lower case. *)
Lemma parseHashtagQuery_lower query :
  Forall (fun q => toLowerCase q = q) (tags (parseHashtagQuery query)).
Proof.
  unfold parseHashtagQuery.
  destruct (includes (trim query) "#"); [|by constructor].
  match goal with |- context [List.filter truthy ?l] =>
    assert (H : Forall (fun q => toLowerCase q = q) (List.filter truthy l))
  end.
  { apply Forall_forall. intros q Hq. apply list_elem_of_In in Hq.
    apply filter_In in Hq as [Hq _].
    apply in_map_iff in Hq as (t & <- & _). apply toLowerCase_idem. }
  destruct (List.filter truthy _); [by constructor|exact H].
Qed.

(** C7 (amended).  For lower-case query tags, as the hashtag parser
    produces them, and documents with pairwise distinct ids: a document
    is included exactly when some query tag matches one of its tags by
    equality or containment in either direction, ignoring case, with no
    threshold; the included documents keep their input order; and the
    score stored for an included document is 10 times the number of
    entries of the query tag list that match it, a tag that is repeated
    in the query counting each time (for pairwise distinct query tags
    this is the number of distinct matched tags). *)
Theorem performTagSearch_any_match summaries searchTags :
  Forall (fun q => toLowerCase q = q) searchTags ->
  NoDup (map tab_id summaries) ->
  let r := performTagSearch summaries searchTags in
  results r = map tab_id (List.filter (anyHit searchTags) summaries)
  /\ (forall s, In s summaries ->
        (In (tab_id s) (results r) <->
         exists q, In q searchTags /\ docMatches s q))
  /\ (forall s, In s summaries -> In (tab_id s) (results r) ->
        scoresMap r !! tab_id s
        = Some (10 * Z.of_nat
                  (List.length (List.filter (docMatchesb s) searchTags))))
  /\ (forall s q, In q searchTags ->
        (docMatchesb s q = true <-> docMatches s q))
  /\ (NoDup searchTags -> forall s,
        uniq (List.filter (docMatchesb s) searchTags)
        = List.filter (docMatchesb s) searchTags).
Proof.
  intros Hlow Hnd r.
  assert (Hres : results r
                 = map tab_id (List.filter (anyHit searchTags) summaries)).
  { unfold r, performTagSearch. by rewrite tagSearch_results. }
  assert (Hb : forall s q, In q searchTags ->
                 (docMatchesb s q = true <-> docMatches s q)).
  { intros s q Hq. apply docMatchesb_spec.
    rewrite Forall_forall in Hlow. apply Hlow. by apply list_elem_of_In. }
  assert (Hin : forall s, In s summaries ->
                  (In (tab_id s) (results r) <-> anyHit searchTags s = true)).
  { intros s Hs. rewrite Hres, in_map_iff. split.
    - intros (s' & Heq & Hs'). apply filter_In in Hs' as [Hs' Hhit].
      by rewrite <- (NoDup_map_inj tab_id summaries s' s).
    - intros Hhit. exists s. split; [done|]. by apply filter_In. }
  split; [exact Hres|]. split; [|split; [|split; [exact Hb|]]].
  - intros s Hs. rewrite (Hin s Hs). unfold anyHit.
    rewrite existsb_exists. split; intros (q & Hq & Hm); exists q;
      (split; [done|]); by apply (Hb s q).
  - intros s Hs Hr. apply Hin in Hr; [|done].
    unfold r, performTagSearch. by apply tagSearch_scores.
  - intros Hq s. apply uniq_NoDup. by apply NoDup_List_filter.
Qed.

Lemma performTagSearch_any_match_witness :
  results
    (performTagSearch
       [ {| tab_id := 1; tab_title := "a"; tab_url := "";
            tab_summary := ""; tab_tags := ["WebDev"] |};
         {| tab_id := 2; tab_title := "b"; tab_url := "";
            tab_summary := ""; tab_tags := ["js"] |} ]
       ["web"; "javascript"])
  = [1].
Proof.
  refine (eq_trans
            (proj1 (performTagSearch_any_match
                      [ {| tab_id := 1; tab_title := "a"; tab_url := "";
                           tab_summary := ""; tab_tags := ["WebDev"] |};
                        {| tab_id := 2; tab_title := "b"; tab_url := "";
                           tab_summary := ""; tab_tags := ["js"] |} ]
                      ["web"; "javascript"] _ _)) _).
  - repeat constructor.
  - cbn [map tab_id]. apply NoDup_cons. split; [|apply NoDup_singleton].
    intros H. apply list_elem_of_In in H. destruct H as [H|[]]. discriminate H.
  - reflexivity.
Defined.

(** C7 as stated fails when a query repeats a tag: the document tagged
    [webdev] searched with [#web #web] is stored with score 20, although
    one distinct query tag matched. *)
Lemma performTagSearch_repeated_tag_counterexample :
  let doc := {| tab_id := 1; tab_title := "a"; tab_url := "";
                tab_summary := ""; tab_tags := ["webdev"] |} in
  tags (parseHashtagQuery "#web #web") = ["web"; "web"]
  /\ scoresMap (performTagSearch [doc] ["web"; "web"]) !! 1 = Some 20
  /\ 10 * Z.of_nat
            (List.length (uniq (List.filter (docMatchesb doc) ["web"; "web"])))
     = 10.
Proof. vm_compute. repeat split; reflexivity. Qed.

End TagSearchClaims.

(** ** Stable sorting *)

Section SortFacts.

Context {A : Type} (before : A -> A -> bool).

Hypothesis before_total : forall a b, before a b = true \/ before b a = true.
Hypothesis before_trans :
  forall a b c, before a b = true -> before b c = true -> before a c = true.

Lemma insertStable_perm x l : Permutation (insertStable before x l) (x :: l).
Proof.
  induction l as [|y l IH]; cbn [insertStable]; [done|].
  destruct (before y x); [|done].
  rewrite IH. apply perm_swap.
Qed.

Lemma sortStable_perm_acc l : forall acc,
  Permutation (fold_left (fun acc x => insertStable before x acc) l acc)
    (acc ++ l).
Proof.
  induction l as [|x l IH]; intros acc; cbn [fold_left].
  - by rewrite app_nil_r.
  - rewrite IH, insertStable_perm. cbn [app]. apply Permutation_middle.
Qed.

Lemma sortStable_perm l : Permutation (sortStable before l) l.
Proof. unfold sortStable. by rewrite sortStable_perm_acc. Qed.

Lemma insertStable_sorted x l :
  StronglySorted (ahead before) l -> StronglySorted (ahead before) (insertStable before x l).
Proof.
  induction 1 as [|y l Hs IH Hall]; cbn [insertStable].
  - repeat constructor.
  - destruct (before y x) eqn:E.
    + constructor; [exact IH|].
      eapply Permutation_Forall; [symmetry; apply insertStable_perm|].
      by constructor.
    + assert (Hxy : ahead before x y) by (destruct (before_total x y); congruence).
      constructor; [by constructor|]. constructor; [done|].
      eapply Forall_impl; [exact Hall|]. intros z Hz.
      by apply (before_trans x y z).
Qed.

Lemma sortStable_sorted_acc l : forall acc,
  StronglySorted (ahead before) acc ->
  StronglySorted (ahead before)
    (fold_left (fun acc x => insertStable before x acc) l acc).
Proof.
  induction l as [|x l IH]; intros acc Hacc; cbn [fold_left]; [done|].
  apply IH. by apply insertStable_sorted.
Qed.

Lemma sortStable_sorted l : StronglySorted (ahead before) (sortStable before l).
Proof. apply sortStable_sorted_acc. constructor. Qed.

End SortFacts.

Section FilterFacts.

Context {A : Type}.



Lemma StronglySorted_weaken (R R' : A -> A -> Prop) l :
  (forall a b, R a b -> R' a b) ->
  StronglySorted R l -> StronglySorted R' l.
Proof.
  intros Himp. induction 1 as [|x l Hs IH Hall]; constructor; [done|].
  eapply Forall_impl; [exact Hall|]. intros y. apply Himp.
Qed.

End FilterFacts.

(** ** Lexical scorer *)

Section LexicalClaims.

Import Lexical.

Variable parseURL : string -> option parsedUrl.




End LexicalClaims.

(** ** Semantic validation *)

Section SemanticFacts.

Import Semantic.

Variable summaries : list tabSummary.
Variable queryKeywords : list string.

Lemma matchesThisTab_spec tab clean :
  matchesThisTab tab clean = true <-> occursIn tab clean.
Proof.
  unfold matchesThisTab, occursIn.
  rewrite !orb_true_iff, !includes_Substring. tauto.
Qed.

Lemma foundMatch_spec tab quoted :
  foundMatch tab quoted = true <->
  exists q, In q quoted
            /\ (5 <= String.length (cleanQuoted q))%nat
            /\ occursIn tab (cleanQuoted q).
Proof.
  unfold foundMatch. rewrite existsb_exists.
  split; intros (q & Hq & H); exists q; (split; [done|]).
  - apply andb_true_iff in H as [H1 H2].
    apply Nat.leb_le in H1. by apply matchesThisTab_spec in H2.
  - destruct H as [H1 H2]. apply andb_true_iff. split.
    + by apply Nat.leb_le.
    + by apply matchesThisTab_spec.
Qed.

(** What an accepted candidate looks like, whatever the floor and the
    coverage threshold. *)
Lemma acceptsWith_inv floor coverage r :
  acceptsWith summaries queryKeywords floor coverage r = true ->
  exists rf sc text tab,
    ref r = VStr rf /\ relevanceScore r = VNum sc /\ reason r = VStr text
    /\ refToTab summaries !! rf = Some tab
    /\ (floor <= sc)%Q
    /\ grounded tab text = true
    /\ hasUncertainty (toLowerCase text) = false.
Proof.
  unfold acceptsWith.
  destruct (ref r) as [| |?| |rf|]; try done.
  destruct (relevanceScore r) as [| |sc| |?|]; try done.
  destruct (reason r) as [| |?| |text|]; try done.
  destruct (refToTab summaries !! rf) as [tab|] eqn:Htab;
    [|by rewrite andb_false_r].
  rewrite !andb_true_iff, !negb_true_iff.
  intros [[[_ _] Hfloor] [[Hg Hu] _]].
  exists rf, sc, text, tab. repeat split; try done.
  unfold Qltb in Hfloor. apply negb_false_iff in Hfloor.
  by apply Qle_bool_iff.
Qed.

Lemma filterResults_spec accepts rs :
  filterResults accepts rs
  = if existsb isNull rs then None
    else Some (List.filter accepts (objects rs)).
Proof.
  induction rs as [|[|r] rs IH]; cbn [filterResults existsb isNull orb];
    [done..|].
  rewrite IH. destruct (existsb isNull rs); [done|].
  change (objects (ItemObj r :: rs)) with (r :: objects rs).
  cbn [List.filter]. by destruct (accepts r).
Qed.



Lemma sortStable_nil {A} (before : A -> A -> bool) l :
  sortStable before l = [] <-> l = [].
Proof.
  split; [|by intros ->].
  intros H. pose proof (sortStable_perm before l) as Hp.
  rewrite H in Hp. by apply Permutation_nil.
Qed.

(** The shape of [validResults]: the strict pass when it keeps
    something, else the relaxed pass; nothing when an element is
    [null]. *)
Lemma accepted_spec rs :
  accepted summaries queryKeywords rs
  = if existsb isNull rs then []
    else
      match List.filter (firstPass summaries queryKeywords) (objects rs) with
      | [] =>
          sortStable byRelevanceDesc
            (List.filter (secondPass summaries queryKeywords) (objects rs))
      | strict => sortStable byRelevanceDesc strict
      end.
Proof.
  unfold accepted, validate. rewrite !filterResults_spec.
  destruct (existsb isNull rs); [done|].
  destruct (List.filter (firstPass summaries queryKeywords) (objects rs))
    as [|x strict] eqn:E; [done|].
  destruct (sortStable byRelevanceDesc (x :: strict)) eqn:E2; [|done].
  by apply sortStable_nil in E2.
Qed.

(** An accepted candidate passed one of the two callbacks. *)
Lemma accepted_inv rs r :
  In r (accepted summaries queryKeywords rs) ->
  firstPass summaries queryKeywords r = true
  \/ secondPass summaries queryKeywords r = true.
Proof.
  rewrite accepted_spec. destruct (existsb isNull rs); [done|].
  destruct (List.filter (firstPass summaries queryKeywords) (objects rs))
    as [|x strict] eqn:E; intros Hin.
  - right. apply list_elem_of_In in Hin. rewrite sortStable_perm in Hin.
    apply list_elem_of_In, filter_In in Hin. tauto.
  - left. apply list_elem_of_In in Hin. rewrite sortStable_perm, <- E in Hin.
    apply list_elem_of_In, filter_In in Hin. tauto.
Qed.

(** A candidate whose quotes are all unverifiable is never accepted. *)
Lemma ungrounded_rejected floor coverage r text :
  reason r = VStr text ->
  quotedTexts text <> [] ->
  (forall rf tab q,
     ref r = VStr rf -> refToTab summaries !! rf = Some tab ->
     In q (quotedTexts text) ->
     (5 <= String.length (cleanQuoted q))%nat ->
     ~ occursIn tab (cleanQuoted q)) ->
  acceptsWith summaries queryKeywords floor coverage r = false.
Proof.
  intros Hreason Hquoted Hnone.
  destruct (acceptsWith summaries queryKeywords floor coverage r) eqn:E;
    [|done].
  apply acceptsWith_inv in E
    as (rf & sc & text' & tab & Hrf & _ & Htext & Htab & _ & Hg & _).
  assert (text' = text) as -> by congruence.
  unfold grounded in Hg.
  destruct (quotedTexts text) as [|q0 qs] eqn:Eq; [done|].
  apply foundMatch_spec in Hg as (q & Hq & Hlen & Hocc).
  exfalso. by apply (Hnone rf tab q).
Qed.

End SemanticFacts.

Section QuoteFacts.

Import Semantic.

Lemma trimStart_length s : (String.length (trimStart s) <= String.length s)%nat.
Proof.
  induction s as [|c s IH]; cbn [trimStart String.length]; [done|].
  destruct (isSpace c); cbn [String.length]; lia.
Qed.

Lemma trimEnd_length s : (String.length (trimEnd s) <= String.length s)%nat.
Proof.
  induction s as [|c s IH]; cbn [trimEnd String.length]; [done|].
  destruct (trimEnd s); [destruct (isSpace c)|]; cbn [String.length] in *; lia.
Qed.

Lemma trim_length s : (String.length (trim s) <= String.length s)%nat.
Proof.
  unfold trim. pose proof (trimEnd_length (trimStart s)).
  pose proof (trimStart_length s). lia.
Qed.

Lemma toLowerCase_length s : String.length (toLowerCase s) = String.length s.
Proof.
  induction s as [|c s IH]; cbn [toLowerCase String.length]; [done|].
  by rewrite IH.
Qed.

Lemma unquote_length s :
  (String.length (replaceClass isQuote "" s) <= String.length s)%nat.
Proof.
  induction s as [|c s IH]; cbn [replaceClass String.length]; [done|].
  destruct (isQuote c).
  - rewrite append_nil_l. lia.
  - rewrite append_cons, append_nil_l. cbn [String.length]. lia.
Qed.

Lemma unquote_append a b :
  replaceClass isQuote "" (a +:+ b)
  = replaceClass isQuote "" a +:+ replaceClass isQuote "" b.
Proof.
  induction a as [|c a IH]; [done|].
  rewrite append_cons. cbn [replaceClass]. by rewrite IH, append_assoc.
Qed.

(** Every match of the pattern is a quote, some text, a quote. *)
Lemma scanQuoted_shape s : forall open q,
  In q (scanQuoted s open) -> exists buf, q = "'" +:+ buf +:+ "'".
Proof.
  induction s as [|c s IH]; intros open q Hin; [done|].
  cbn [scanQuoted] in Hin. destruct open as [buf|]; [|by eapply IH].
  destruct (isQuote c); [|by eapply IH].
  destruct buf as [|b buf]; [by eapply IH|].
  destruct Hin as [<-|Hin]; [eauto|by eapply IH].
Qed.

(** The text compared against the document is never longer than the
    text between the quotes. *)
Lemma cleanQuoted_length text q :
  In q (quotedTexts text) ->
  (String.length (cleanQuoted q) <= String.length q - 2)%nat.
Proof.
  intros Hin. apply scanQuoted_shape in Hin as [buf ->].
  unfold cleanQuoted.
  etransitivity; [apply trim_length|]. rewrite toLowerCase_length.
  rewrite !unquote_append, !length_append.
  change (replaceClass isQuote "" "'") with EmptyString.
  pose proof (unquote_length buf). cbn [String.length]. lia.
Qed.

End QuoteFacts.

Section SemanticClaims.

Import Semantic.

(** C9.  A candidate whose reason quotes something, but only texts
    shorter than 5 characters after cleaning (which a quoted text of
    fewer than 5 characters always is), is excluded: the check does
    not pass vacuously. *)
Theorem short_quotes_candidate_rejected summaries queryKeywords rs r text :
  reason r = VStr text ->
  quotedTexts text <> [] ->
  (forall q, In q (quotedTexts text) ->
             (String.length (cleanQuoted q) < 5)%nat) ->
  ~ In r (accepted summaries queryKeywords rs)
  /\ firstPass summaries queryKeywords r = false
  /\ secondPass summaries queryKeywords r = false.
Proof.
  intros Hreason Hquoted Hshort.
  assert (Hrej : forall floor coverage,
            acceptsWith summaries queryKeywords floor coverage r = false).
  { intros floor coverage.
    apply (ungrounded_rejected summaries queryKeywords _ _ r text);
      [done..|].
    intros rf tab q _ _ Hq Hlen. specialize (Hshort q Hq). lia. }
  split; [|by split; apply Hrej].
  intros Hin. apply accepted_inv in Hin as [H|H];
    unfold firstPass, secondPass in H; by rewrite Hrej in H.
Qed.


End SemanticClaims.

Section SemanticChecks.

Import Semantic Examples.

Lemma short_quotes_candidate_rejected_witness :
  quotedTexts "Keywords: 'hell' in title of the hello 'guid'"
  = ["'hell'"; "'guid'"]
  /\ ~ In shortQuotes (accepted helloDocs ["hello"] [ItemObj shortQuotes]).
Proof.
  split; [reflexivity|].
  apply (short_quotes_candidate_rejected helloDocs ["hello"]
           [ItemObj shortQuotes] shortQuotes
           "Keywords: 'hell' in title of the hello 'guid'").
  - reflexivity.
  - vm_compute. discriminate.
  - intros q Hq. vm_compute in Hq.
    destruct Hq as [<-|[<-|[]]]; vm_compute; lia.
Defined.

(** C1 as stated fails: a candidate that quotes one text of the title
    and one text of 5 characters found in no field of its document
    is kept. *)
Lemma one_grounded_quote_suffices_counterexample :
  exists tab,
    refToTab helloDocs !! "tab1" = Some tab
    /\ reason mixedQuotes
       = VStr "Keywords: 'hello world' in title, 'zzzzz' in tags"
    /\ In "'zzzzz'"
         (quotedTexts "Keywords: 'hello world' in title, 'zzzzz' in tags")
    /\ String.length (cleanQuoted "'zzzzz'") = 5%nat
    /\ ~ occursIn tab (cleanQuoted "'zzzzz'")
    /\ In mixedQuotes (accepted helloDocs ["hello"] [ItemObj mixedQuotes]).
Proof.
  eexists. split; [vm_compute; reflexivity|].
  split; [reflexivity|]. split; [vm_compute; tauto|].
  split; [reflexivity|]. split.
  - intros Hocc. apply matchesThisTab_spec in Hocc.
    vm_compute in Hocc. discriminate.
  - vm_compute. by left.
Qed.

End SemanticChecks.

(** ** Summarization *)

Section SummarizeClaims.

Import Summarize Examples.

Lemma dedup_spec xs : forall seen,
  NoDup (dedup seen xs) /\ forall x, In x (dedup seen xs) -> ~ In x seen.
Proof.
  induction xs as [|x xs IH]; intros seen; cbn [dedup].
  - split; [constructor|done].
  - destruct (existsb (String.eqb x) seen) eqn:E; [apply IH|].
    destruct (IH (x :: seen)) as [Hnd Hdisj]. split.
    + apply NoDup_cons. split; [|done].
      rewrite list_elem_of_In. intros Hin. apply (Hdisj x Hin). by left.
    + intros y [<-|Hy] Hs.
      * assert (existsb (String.eqb x) seen = true); [|congruence].
        apply existsb_exists. exists x. by rewrite String.eqb_refl.
      * apply (Hdisj y Hy). by right.
Qed.

Lemma NoDup_firstn {A} n (l : list A) : NoDup l -> NoDup (firstn n l).
Proof. intros H. eapply sublist_NoDup; [exact H|apply sublist_take]. Qed.

Lemma generateFallbackTags_bound parseURL title url :
  (List.length (generateFallbackTags parseURL title url) <= 3)%nat
  /\ NoDup (generateFallbackTags parseURL title url).
Proof.
  unfold generateFallbackTags. split; [apply firstn_le_length|].
  apply NoDup_firstn. unfold uniq. apply dedup_spec.
Qed.

Lemma fromModel_tags safeJsonParse outcome :
  (List.length (snd (fromModel safeJsonParse outcome)) <= 3)%nat.
Proof.
  unfold fromModel. destruct outcome as [|raw]; [cbn; lia|].
  destruct (safeJsonParse _) as [parsed|]; [|cbn; lia].
  assert (Ht : (List.length
                  match p_tags parsed with
                  | Some ts => firstn 3 ts
                  | None => []
                  end <= 3)%nat).
  { destruct (p_tags parsed); [apply firstn_le_length|cbn; lia]. }
  cbv zeta. destruct (p_summary parsed) as [|s|v]; [cbn; lia| |].
  - destruct (truthy s); [exact Ht|cbn; lia].
  - destruct (clipForeign v); [exact Ht|cbn; lia].
Qed.

(** C10.  Every summary record carries at most 3 tags: the tags taken
    from the model's answer are its first 3 entries at most, and the
    heuristic generator returns at most 3 tags without repetition. *)
Theorem summary_tags_at_most_three parseURL safeJsonParse session outcome
  item :
  (List.length
     (s_tags (summarizeItem parseURL safeJsonParse session outcome item))
   <= 3)%nat
  /\ (forall ts,
        safeJsonParse "x"
        = Some {| p_summary := Text "s"; p_tags := Some ts |} ->
        snd (fromModel safeJsonParse (PromptReturns (Some "x")))
        = firstn 3 ts)
  /\ (List.length (generateFallbackTags parseURL (e_title item) (e_url item))
      <= 3)%nat
  /\ NoDup (generateFallbackTags parseURL (e_title item) (e_url item)).
Proof.
  split; [|split; [|apply generateFallbackTags_bound]].
  - unfold summarizeItem.
    destruct (session && truthy (e_text item)).
    + pose proof (fromModel_tags safeJsonParse outcome) as Hm.
      destruct (fromModel safeJsonParse outcome) as [summary tags].
      cbn [snd] in Hm. destruct (truthyValue summary); cbn [s_tags]; [done|].
      apply generateFallbackTags_bound.
    + cbn [truthyValue truthy s_tags]. apply generateFallbackTags_bound.
  - intros ts H. unfold fromModel. cbn [Semantic.orElse truthy].
    by rewrite H.
Qed.

Lemma slice0_length n s :
  String.length (slice0 n s) = Nat.min n (String.length s).
Proof.
  unfold slice0. revert s. induction n as [|n IH]; intros [|c s];
    cbn [String.substring String.length]; try done.
  by rewrite IH.
Qed.

(** What the code guarantees instead of the 500 limit. *)
Lemma clip_length s : (String.length (clip s) <= 503)%nat.
Proof.
  unfold clip, maxLength. destruct (500 <? String.length s)%nat eqn:E.
  - rewrite length_append, slice0_length. cbn [String.length]. lia.
  - apply Nat.ltb_ge in E. lia.
Qed.

(** C4 fails on the code.  A page text of 501 characters is cut to 500
    characters and then gets three dots appended, so the fallback
    summary has 503 characters; a model summary of 600 characters ends
    up with 503 characters in the same way. *)
Theorem summary_can_exceed_500 parseURL :
  textLength
    (s_summary
       (summarizeItem parseURL longAnswer false PromptThrows longPage))
  = Some 503%nat
  /\ textLength
       (s_summary
          (summarizeItem parseURL longAnswer true
             (PromptReturns (Some "x")) longPage))
     = Some 503%nat.
Proof. split; vm_compute; reflexivity. Qed.

End SummarizeClaims.

(** ** Reconciler *)

Section ReconcilerFacts.

Import Reconciler.

Lemma markAll_lookup src ids id :
  In id ids -> markAll src ids !! id = Some src.
Proof.
  unfold markAll.
  assert (H : forall (m : gmap Z source),
            (In id ids \/ m !! id = Some src) ->
            fold_left (fun m id => <[id := src]> m) ids m !! id = Some src).
  { induction ids as [|x ids IH]; intros m [Hin|Hm]; cbn [fold_left];
      try done.
    - destruct Hin as [->|Hin].
      + apply IH. right. apply lookup_insert_eq.
      + apply IH. by left.
    - apply IH. right. destruct (decide (x = id)) as [->|Hne].
      + apply lookup_insert_eq.
      + by rewrite lookup_insert_ne. }
  intros Hin. apply H. by left.
Qed.

Lemma markAll_dom src ids id :
  is_Some (markAll src ids !! id) -> In id ids.
Proof.
  unfold markAll.
  assert (H : forall (m : gmap Z source),
            is_Some (fold_left (fun m id => <[id := src]> m) ids m !! id) ->
            In id ids \/ is_Some (m !! id)).
  { induction ids as [|x ids IH]; intros m Hm; cbn [fold_left] in Hm.
    - by right.
    - destruct (IH _ Hm) as [Hin|Hs]; [left; by right|].
      destruct (decide (x = id)) as [->|Hne]; [left; by left|].
      right. by rewrite lookup_insert_ne in Hs. }
  intros Hs. destruct (H ∅ Hs) as [Hin|Hempty]; [done|].
  rewrite lookup_empty in Hempty. by destruct Hempty.
Qed.

(** The callback installs the model's ids, whatever was shown before,
    once [handleSearch] has shown and stored the lexical ids. *)
Lemma onAiAnswer_replaces fallbackIds idsFromAI w searchQuery :
  idsFromAI <> [] ->
  rendered w = fallbackIds ->
  aiSearchSession w
  = Some {| query := searchQuery; tabIds := fallbackIds |} ->
  let w' := onAiAnswer false fallbackIds idsFromAI w in
  rendered w' = idsFromAI
  /\ aiSearchSession w'
     = Some {| query := searchQuery; tabIds := idsFromAI |}
  /\ tabResultSources w' = markAll Ai idsFromAI
  /\ status w' = foundStatus (List.length idsFromAI).
Proof.
  intros Hne Hr Hs. unfold onAiAnswer.
  destruct idsFromAI as [|a ids]; [done|].
  destruct (bool_decide (a :: ids = fallbackIds)) eqn:E; cbn zeta.
  - apply bool_decide_eq_true in E. cbn. by rewrite Hr, Hs, E.
  - cbn. by rewrite Hs.
Qed.

End ReconcilerFacts.

Section ReconcilerClaims.

Import Reconciler Examples.

(** C2.  In the default mode (no hashtag query, neither the aggressive
    nor the AI-only switch, no abort), when the lexical scorer returns a
    non-empty list and the model's answer, arriving after these have
    been shown, validates to a non-empty list, the result set shown and
    stored in the session is exactly the model's list in its order: ids
    that only the lexical scorer found are dropped, and every shown id
    is labelled as an AI result. *)
Theorem semantic_replaces_lexical parseURL openTabs pageText abortedAtTurn
  reply summaries searchQuery w :
  TagSearch.isHashtagSearch (TagSearch.parseHashtagQuery searchQuery) = false ->
  results (Lexical.performFallbackSearch parseURL summaries searchQuery None)
    <> [] ->
  idsFromAI reply summaries searchQuery <> [] ->
  let lexical :=
    results
      (Lexical.performFallbackSearch parseURL summaries searchQuery None) in
  let semantic := idsFromAI reply summaries searchQuery in
  let w' :=
    search parseURL openTabs pageText abortedAtTurn false false reply
      false false summaries searchQuery false w in
  rendered w' = semantic
  /\ aiSearchSession w'
     = Some {| query := searchQuery; tabIds := semantic |}
  /\ (forall id, In id lexical -> ~ In id semantic -> ~ In id (rendered w'))
  /\ (forall id, In id (rendered w') -> tabResultSources w' !! id = Some Ai)
  /\ (forall id, is_Some (tabResultSources w' !! id) -> In id semantic).
Proof.
  intros Hhash Hlex Hsem lexical semantic w'.
  assert (Hw' : rendered w' = semantic
                /\ aiSearchSession w'
                   = Some {| query := searchQuery; tabIds := semantic |}
                /\ tabResultSources w' = markAll Ai semantic
                /\ status w' = foundStatus (List.length semantic)).
  { unfold w', search, selectFromSummariesWithAIOrFallback.
    rewrite Hhash. fold lexical. fold semantic.
    destruct lexical as [|a l] eqn:El; [done|].
    cbn [selected after awaiting].
    apply (onAiAnswer_replaces (a :: l) semantic _ searchQuery Hsem).
    - unfold afterSelection.
      by repeat match goal with |- context [if ?b then _ else _] =>
                  destruct b end.
    - unfold afterSelection.
      by repeat match goal with |- context [if ?b then _ else _] =>
                  destruct b end. }
  destruct Hw' as (Hr & Hs & Hsrc & _).
  split; [exact Hr|]. split; [exact Hs|]. rewrite Hr, Hsrc.
  split; [tauto|]. split.
  - intros id Hin. by apply markAll_lookup.
  - intros id. apply markAll_dom.
Qed.

Lemma semantic_replaces_lexical_witness :
  results (Lexical.performFallbackSearch noUrl foodDocs "food" None) = [1; 2]
  /\ idsFromAI foodReply foodDocs "food" = [2; 3]
  /\ rendered
       (search noUrl [] (fun _ => EmptyString) (fun _ => false) false false
          foodReply false false foodDocs "food" false emptyWorld)
     = [2; 3].
Proof.
  split; [reflexivity|]. split; [reflexivity|].
  refine (eq_trans
            (proj1 (semantic_replaces_lexical noUrl []
                      (fun _ => EmptyString) (fun _ => false)
                      foodReply foodDocs "food" emptyWorld _ _ _)) _).
  - reflexivity.
  - vm_compute. discriminate.
  - vm_compute. discriminate.
  - reflexivity.
Defined.

(** The aggressive search ends with the "searched all" status and
    returns what it found, aborted or not. *)
Lemma aggressiveSearch_status parseURL openTabs pageText abortedAtTurn
  summaries searchQuery w :
  status
    (snd (aggressiveSearch parseURL openTabs pageText abortedAtTurn
            summaries searchQuery w))
  = foundAllStatus
      (List.length
         (fst (aggressiveSearch parseURL openTabs pageText abortedAtTurn
                 summaries searchQuery w)))
      (List.length openTabs).
Proof. reflexivity. Qed.

(** C5 fails on the code in aggressive mode.  With two open tabs, the
    query [hello] and an abort observed at the second tab, the loop
    sets the "Search aborted" status and leaves, after which the search
    overwrites it with the report that all tabs were searched and
    returns the one id found so far; aborted at the first tab it
    reports 0 tabs found.  In the
    normal flow an abort seen after the lexical scorer returns nothing
    and leaves the state as it was. *)
Theorem aggressive_abort_keeps_partial_results :
  let aborted2 := aggressiveSearch noUrl twoTabs (fun _ => EmptyString)
                    (fun i => Nat.eqb i 1) helloDocs "hello" emptyWorld in
  let aborted1 := aggressiveSearch noUrl twoTabs (fun _ => EmptyString)
                    (fun i => Nat.eqb i 0) helloDocs "hello" emptyWorld in
  let normal := selectFromSummariesWithAIOrFallback noUrl twoTabs
                  (fun _ => EmptyString) (fun _ => false) true Semantic.NoSession
                  false false helloDocs "hello" emptyWorld in
  status
    (now (aggressiveLoop noUrl twoTabs (fun _ => EmptyString)
            (fun i => Nat.eqb i 1) helloDocs ["hello"] 0 twoTabs
            {| found := []; reasons := ∅; scores := ∅;
               now := emptyWorld |}))
  = "Search aborted. Found 1 tabs (searched 2/2)"
  /\ fst aborted2 = [11]
  /\ status (snd aborted2) = "Found 1 tab (searched all 2 tabs)."
  /\ fst aborted1 = []
  /\ status (snd aborted1) = "Found 0 tabs (searched all 2 tabs)."
  /\ selected normal = [] /\ after normal = emptyWorld.
Proof. vm_compute. repeat split; reflexivity. Qed.

End ReconcilerClaims.

(** * Further properties of the code *)

(** ** Tokens *)

Section TokenFacts.

Import Chars Keywords TagSearch.

Lemma forallChars_append p (a b : string) :
  forallChars p (a +:+ b) = forallChars p a && forallChars p b.
Proof.
  induction a as [|c a IH]; [done|].
  rewrite append_cons. cbn [forallChars]. by rewrite IH, andb_assoc.
Qed.

(** No piece of a split contains a separator. *)
Lemma splitRun_no_separator sep s : forall cur inSep,
  forallChars (fun c => negb (sep c)) cur = true ->
  Forall (fun piece => forallChars (fun c => negb (sep c)) piece = true)
    (splitRun sep s cur inSep).
Proof.
  induction s as [|c s IH]; intros cur inSep Hcur; cbn [splitRun].
  - by repeat constructor.
  - destruct (sep c) eqn:Hc.
    + destruct inSep; [by apply IH|]. constructor; [done|by apply IH].
    + apply IH. rewrite forallChars_append, Hcur. cbn. by rewrite Hc.
Qed.

(** The pieces of a split keep every property of all characters. *)
Lemma splitRun_keeps p sep s : forall cur inSep,
  forallChars p cur = true -> forallChars p s = true ->
  Forall (fun piece => forallChars p piece = true)
    (splitRun sep s cur inSep).
Proof.
  induction s as [|c s IH]; intros cur inSep Hcur Hs; cbn [splitRun].
  - by repeat constructor.
  - cbn [forallChars] in Hs. apply andb_true_iff in Hs as [Hc Hs].
    destruct (sep c).
    + destruct inSep; [by apply IH|]. constructor; [done|by apply IH].
    + apply IH; [|done]. rewrite forallChars_append, Hcur. cbn.
      by rewrite Hc.
Qed.

Lemma toLowerCase_lowerCaseChar s :
  forallChars lowerCaseChar (toLowerCase s) = true.
Proof.
  induction s as [|c s IH]; [done|]. cbn [toLowerCase forallChars].
  rewrite IH, andb_true_r. unfold lowerCaseChar.
  rewrite lowerChar_idem. apply Ascii.eqb_refl.
Qed.

Lemma lowerCaseChar_fixed s :
  forallChars lowerCaseChar s = true -> toLowerCase s = s.
Proof.
  induction s as [|c s IH]; [done|]. cbn [toLowerCase forallChars].
  intros H. apply andb_true_iff in H as [Hc Hs].
  apply Ascii.eqb_eq in Hc. by rewrite Hc, IH.
Qed.

Lemma blank_split s : forall inSep,
  hasVisible s = false ->
  List.filter truthy (splitRun isSpace s EmptyString inSep) = [].
Proof.
  induction s as [|c s IH]; intros inSep H; [done|].
  cbn [hasVisible] in H. apply orb_false_iff in H as [Hc Hs].
  apply negb_false_iff in Hc. cbn [splitRun]. rewrite Hc.
  destruct inSep; [by apply IH|]. cbn [List.filter truthy]. by apply IH.
Qed.

Lemma words_tokens query :
  Forall (fun w => w <> EmptyString
                   /\ forallChars visibleChar w = true
                   /\ toLowerCase w = w)
    (words query).
Proof.
  unfold words, split. apply Forall_forall. intros w Hw.
  apply list_elem_of_In, filter_In in Hw as [Hw Ht].
  apply list_elem_of_In in Hw. split; [by destruct w|]. split.
  - pose proof (splitRun_no_separator isSpace (toLowerCase query)
                  EmptyString false eq_refl) as H.
    rewrite Forall_forall in H. by apply H.
  - apply lowerCaseChar_fixed.
    pose proof (splitRun_keeps lowerCaseChar isSpace (toLowerCase query)
                  EmptyString false eq_refl
                  (toLowerCase_lowerCaseChar query)) as H.
    rewrite Forall_forall in H. by apply H.
Qed.

(** X1.  Keyword extraction returns no term exactly for a query
    without visible text; every term it returns is non-empty, free of
    white space and lower case; and as soon as one token survives the
    filter, every returned term is longer than 2 characters and is not
    a stop word. *)
Theorem extractKeywords_tokens query :
  (extractKeywords query = [] <-> hasVisible query = false)
  /\ Forall (fun w => w <> EmptyString
                      /\ forallChars visibleChar w = true
                      /\ toLowerCase w = w)
       (extractKeywords query)
  /\ (List.filter meaningful (words query) <> [] ->
      Forall (fun w => (2 < String.length w)%nat /\ isStopWord w = false)
        (extractKeywords query)).
Proof.
  pose proof (words_tokens query) as Hw.
  destruct (extractKeywords_cases query) as [[Hf He]|[Hf He]]; rewrite He.
  - split; [|split; [done|by rewrite Hf]].
    split.
    + intros Hnil. destruct (hasVisible query) eqn:Hv; [|done].
      by apply words_nonempty in Hv.
    + intros Hv. unfold words, split. apply blank_split.
      by rewrite hasVisible_toLowerCase.
  - split; [|split].
    + split; [done|]. intros Hv. exfalso. apply Hf.
      unfold words, split. rewrite blank_split; [done|].
      by rewrite hasVisible_toLowerCase.
    + apply Forall_forall. intros w Hin.
      apply list_elem_of_In, filter_In in Hin as [Hin _].
      rewrite Forall_forall in Hw. by apply Hw, list_elem_of_In.
    + intros _. apply Forall_forall. intros w Hin.
      apply list_elem_of_In, filter_In in Hin as [_ Hm].
      unfold meaningful in Hm. apply andb_true_iff in Hm as [H1 H2].
      apply negb_true_iff in H1. by apply Nat.ltb_lt in H2.
Qed.

Lemma lowerChar_isCommaOrSpace c :
  isCommaOrSpace (lowerChar c) = isCommaOrSpace c.
Proof. by destruct c as [[] [] [] [] [] [] [] []]. Qed.

Lemma toLowerCase_no_separator s :
  forallChars (fun c => negb (isCommaOrSpace c)) (toLowerCase s)
  = forallChars (fun c => negb (isCommaOrSpace c)) s.
Proof.
  induction s as [|c s IH]; [done|]. cbn [toLowerCase forallChars].
  by rewrite lowerChar_isCommaOrSpace, IH.
Qed.

(** X2.  The hashtag parser reports a hashtag search exactly when it
    found a tag; every tag it returns is non-empty, lower case and free
    of commas and white space; a query without [#] is never a hashtag
    search. *)
Theorem parseHashtagQuery_tags query :
  let h := parseHashtagQuery query in
  (isHashtagSearch h = true <-> tags h <> [])
  /\ Forall (fun t => t <> EmptyString
                      /\ toLowerCase t = t
                      /\ forallChars (fun c => negb (isCommaOrSpace c)) t
                         = true)
       (tags h)
  /\ (includes (trim query) "#" = false ->
      isHashtagSearch h = false /\ tags h = []).
Proof.
  unfold parseHashtagQuery.
  destruct (includes (trim query) "#");
    [|cbn; repeat split; try done; by constructor].
  match goal with |- context [List.filter truthy ?l] =>
    assert (H : Forall (fun t => t <> EmptyString
                                 /\ toLowerCase t = t
                                 /\ forallChars
                                      (fun c => negb (isCommaOrSpace c)) t
                                    = true)
                  (List.filter truthy l))
  end.
  { apply Forall_forall. intros t Ht.
    apply list_elem_of_In, filter_In in Ht as [Ht Htr].
    split; [by destruct t|].
    apply in_map_iff in Ht as (piece & <- & Hp).
    split; [apply toLowerCase_idem|].
    rewrite toLowerCase_no_separator.
    apply filter_In in Hp as [Hp _].
    pose proof (splitRun_no_separator isCommaOrSpace (trim query)
                  EmptyString false eq_refl) as Hs.
    rewrite Forall_forall in Hs.
    specialize (Hs piece (proj2 (list_elem_of_In _ _) Hp)).
    destruct piece as [|c piece]; [done|].
    cbn [forallChars] in Hs. apply andb_true_iff in Hs. tauto. }
  destruct (List.filter truthy _) as [|t ts]; cbn;
    repeat split; try done; by constructor.
Qed.

End TokenFacts.

(** ** Objects filled in a loop *)

Section FoldInsertFacts.

Context {K : Type} `{Countable K} {V A : Type}.
Variable key : A -> option K.
Variable val : A -> V.

Local Notation "'fill'" :=
  (fun (m : gmap K V) (x : A) =>
     match key x with
     | Some k => <[k := val x]> m
     | None => m
     end) (only parsing).

Lemma fold_insert_miss l k : forall m,
  (forall x, In x l -> key x <> Some k) ->
  fold_left fill l m !! k = m !! k.
Proof.
  induction l as [|x l IH]; intros m Hmiss; cbn [fold_left]; [done|].
  rewrite IH by (intros y Hy; apply Hmiss; by right).
  destruct (key x) as [k'|] eqn:E; [|done].
  apply lookup_insert_ne. intros ->. by apply (Hmiss x); [left|].
Qed.

Lemma fold_insert_cases l k : forall m,
  fold_left fill l m !! k = m !! k
  \/ exists y, In y l /\ key y = Some k
               /\ fold_left fill l m !! k = Some (val y).
Proof.
  induction l as [|a l IH]; intros m; cbn [fold_left]; [by left|].
  destruct (IH (fill m a)) as [Heq|(y & Hy & Hk & Hl)].
  - rewrite Heq. destruct (key a) as [k'|] eqn:E; [|by left].
    destruct (decide (k' = k)) as [->|Hne].
    + right. exists a. split; [by left|]. split; [done|].
      apply lookup_insert_eq.
    + left. by apply lookup_insert_ne.
  - right. exists y. split; [by right|done].
Qed.

Lemma fold_insert_hit l k : forall m x,
  In x l -> key x = Some k ->
  exists y, In y l /\ key y = Some k
            /\ fold_left fill l m !! k = Some (val y).
Proof.
  induction l as [|a l IH]; intros m x Hin Hk; [done|].
  cbn [fold_left]. destruct Hin as [->|Hin].
  - destruct (fold_insert_cases l k (fill m x)) as [Heq|(y & Hy & Hky & Hl)].
    + exists x. split; [by left|]. split; [done|].
      rewrite Heq, Hk. apply lookup_insert_eq.
    + exists y. split; [by right|done].
  - destruct (IH (fill m a) x Hin Hk) as (y & Hy & Hky & Hl).
    exists y. split; [by right|done].
Qed.

Lemma fold_insert_Some l k v : forall m,
  fold_left fill l m !! k = Some v ->
  (exists x, In x l /\ key x = Some k /\ v = val x) \/ m !! k = Some v.
Proof.
  intros m Hl.
  destruct (fold_insert_cases l k m) as [Heq|(y & Hy & Hk & Hy')].
  - right. by rewrite <- Heq.
  - left. exists y. split; [done|]. split; [done|]. congruence.
Qed.

(** The value stored under [k] is the one of the last element that
    writes to [k]. *)
Lemma fold_insert_last l1 y l2 k m :
  key y = Some k ->
  (forall x, In x l2 -> key x <> Some k) ->
  fold_left fill (l1 ++ y :: l2) m !! k = Some (val y).
Proof.
  intros Hy Hmiss. rewrite fold_left_app. cbn [fold_left].
  rewrite fold_insert_miss by done. rewrite Hy. apply lookup_insert_eq.
Qed.

Lemma last_writer l k : forall x,
  In x l -> key x = Some k ->
  exists l1 y l2, l = l1 ++ y :: l2 /\ key y = Some k
                  /\ forall z, In z l2 -> key z <> Some k.
Proof.
  induction l as [|a l IH]; intros x Hin Hk; [done|].
  destruct (existsb (fun z => bool_decide (key z = Some k)) l) eqn:E.
  - apply existsb_exists in E as (z & Hz & Hkz).
    apply bool_decide_eq_true in Hkz.
    destruct (IH z Hz Hkz) as (l1 & y & l2 & -> & Hy & Hmiss).
    by exists (a :: l1), y, l2.
  - assert (Hmiss : forall z, In z l -> key z <> Some k).
    { intros z Hz Hkz.
      assert (existsb (fun z => bool_decide (key z = Some k)) l = true);
        [|congruence].
      apply existsb_exists. exists z. split; [done|].
      by apply bool_decide_eq_true. }
    destruct Hin as [->|Hin]; [|by destruct (Hmiss x Hin)].
    by exists [], x, l.
Qed.

End FoldInsertFacts.


(** ** Lexical scorer: scores *)

Section LexicalScoreFacts.

Import Lexical Examples.

Variable parseURL : string -> option parsedUrl.

Lemma List_filter_none {A} (f : A -> bool) l :
  (forall x, In x l -> f x = false) -> List.filter f l = [].
Proof.
  induction l as [|x l IH]; intros Hf; cbn [List.filter]; [done|].
  rewrite (Hf x) by (by left). apply IH. intros y Hy. apply Hf. by right.
Qed.

(** One turn of the scoring loop adds between 0 and 17 points, and at
    most 16 outside the full-text mode. *)
Lemma scoreWord_bounds isAggressive title summary tags urlParts fullText
  t word :
  score t
  <= score (scoreWord isAggressive title summary tags urlParts fullText
              t word)
  <= score t + (if isAggressive then 17 else 16).
Proof.
  unfold scoreWord, bump, noteWord.
  destruct (String.length word <? 3)%nat; [destruct isAggressive; lia|].
  destruct isAggressive; cbn [negb andb];
    repeat match goal with
           | |- context [if ?b then _ else _] => destruct b
           end; cbn [score]; lia.
Qed.

Lemma scoreLoop_bounds isAggressive title summary tags urlParts fullText
  words : forall t,
  score t
  <= score (fold_left
              (scoreWord isAggressive title summary tags urlParts fullText)
              words t)
  <= score t
     + (if isAggressive then 17 else 16) * Z.of_nat (List.length words).
Proof.
  induction words as [|w ws IH]; intros t; cbn [fold_left List.length].
  - lia.
  - pose proof (scoreWord_bounds isAggressive title summary tags urlParts
                  fullText t w) as Hw.
    pose proof (IH (scoreWord isAggressive title summary tags urlParts
                      fullText t w)) as Hws.
    destruct isAggressive; lia.
Qed.

(** X3.  The score of a document lies between 0 and 17 points per
    extracted term, and between 0 and 16 per term when no full page
    text is supplied (title 5, tags 7, summary 3, URL 1). *)
Theorem lexical_score_bounds words fullTextData s :
  0 <= st_score (scoreTab parseURL words fullTextData s)
    <= 17 * Z.of_nat (List.length words)
  /\ st_score (scoreTab parseURL words None s)
     <= 16 * Z.of_nat (List.length words).
Proof.
  unfold scoreTab. cbn [st_score]. split.
  - match goal with |- context [fold_left (scoreWord ?a ?b ?c ?d ?e ?f) _ ?t] =>
      pose proof (scoreLoop_bounds a b c d e f words t) as Hb
    end.
    cbn [score] in Hb. destruct fullTextData; lia.
  - match goal with |- context [fold_left (scoreWord ?a ?b ?c ?d ?e ?f) _ ?t] =>
      pose proof (scoreLoop_bounds a b c d e f words t) as Hb
    end.
    cbn [score] in Hb. lia.
Qed.

Lemma scoreLoop_short isAggressive title summary tags urlParts fullText
  words : forall t,
  Forall (fun w => (String.length w < 3)%nat) words ->
  fold_left (scoreWord isAggressive title summary tags urlParts fullText)
    words t = t.
Proof.
  induction words as [|w ws IH]; intros t Hshort; [done|].
  apply Forall_cons in Hshort as [Hw Hws]. cbn [fold_left].
  unfold scoreWord at 2. apply Nat.ltb_lt in Hw. rewrite Hw. by apply IH.
Qed.

(** X4.  When every extracted term is shorter than 3 characters (the
    queries "ai" or "ml", which keyword extraction keeps), the lexical
    scorer skips every term and returns no document, whatever the
    documents contain. *)
Theorem short_terms_find_nothing summaries query fullTextData :
  Forall (fun w => (String.length w < 3)%nat)
    (Keywords.extractKeywords query) ->
  results (performFallbackSearch parseURL summaries query fullTextData) = [].
Proof.
  intros Hshort. unfold performFallbackSearch. cbn [results].
  rewrite List_filter_none; [done|].
  intros x Hx. apply list_elem_of_In in Hx.
  rewrite sortStable_perm in Hx. apply list_elem_of_In, in_map_iff in Hx
    as (s & <- & _).
  unfold scoreTab. cbn [st_score]. rewrite scoreLoop_short by done.
  cbn [score]. apply Z.leb_gt. unfold minScore. lia.
Qed.

(** X5.  For a query of one term of at least 3 characters, without
    full page text, a document reaches the threshold exactly when the
    term hits its title, or its tags, or both its summary and its URL;
    a hit in the summary alone or in the URL alone does not qualify. *)
Theorem single_term_qualifies w s :
  (3 <= String.length w)%nat ->
  (minScore [w] <=? st_score (scoreTab parseURL [w] None s))
  = fieldMatch (toLowerCase (tab_title s)) w
    || fieldMatch (join " " (map toLowerCase (tab_tags s))) w
    || (fieldMatch (toLowerCase (tab_summary s)) w
        && fieldMatch (urlPartsOf parseURL (tab_url s)) w).
Proof.
  intros Hlen. unfold scoreTab, minScore. cbn [st_score fold_left].
  unfold scoreWord, bump, noteWord.
  apply Nat.ltb_ge in Hlen. rewrite Hlen. cbn [negb andb List.length].
  destruct (fieldMatch (toLowerCase (tab_title s)) w),
    (fieldMatch (join " " (map toLowerCase (tab_tags s))) w),
    (fieldMatch (toLowerCase (tab_summary s)) w),
    (fieldMatch (urlPartsOf parseURL (tab_url s)) w); reflexivity.
Qed.

End LexicalScoreFacts.

Section LexicalScoreChecks.

Import Lexical Examples.

Lemma short_terms_find_nothing_witness :
  Keywords.extractKeywords "AI" = ["ai"]
  /\ results
       (performFallbackSearch noUrl [mkTab 1 "AI news" ["ai"]] "AI" None)
     = [].
Proof.
  split; [reflexivity|].
  apply (short_terms_find_nothing noUrl [mkTab 1 "AI news" ["ai"]] "AI" None).
  repeat constructor.
Defined.

Lemma single_term_qualifies_witness :
  (minScore ["food"]
   <=? st_score
         (scoreTab noUrl ["food"] None
            {| tab_id := 1; tab_title := "Blog";
               tab_url := "https://example.com/food";
               tab_summary := ""; tab_tags := [] |}))
  = false.
Proof.
  rewrite (single_term_qualifies noUrl "food"
             {| tab_id := 1; tab_title := "Blog";
                tab_url := "https://example.com/food";
                tab_summary := ""; tab_tags := [] |}).
  - reflexivity.
  - cbn. lia.
Defined.

End LexicalScoreChecks.


Section FoldInsertTotal.

Context {K : Type} `{Countable K} {V A : Type}.
Variable f : A -> K.
Variable val : A -> V.

Lemma fold_set_Some l k v (m : gmap K V) :
  fold_left (fun m x => <[f x := val x]> m) l m !! k = Some v ->
  (exists x, In x l /\ f x = k /\ v = val x) \/ m !! k = Some v.
Proof.
  intros Hl.
  destruct (fold_insert_Some (fun x => Some (f x)) val l k v m Hl)
    as [(x & Hx & Hk & Hv)|Hm]; [|by right].
  left. exists x. split; [done|]. split; [congruence|done].
Qed.

Lemma fold_set_hit l k (m : gmap K V) x :
  In x l -> f x = k ->
  exists y, In y l /\ f y = k
            /\ fold_left (fun m x => <[f x := val x]> m) l m !! k
               = Some (val y).
Proof.
  intros Hx Hk.
  destruct (fold_insert_hit (fun x => Some (f x)) val l k m x Hx)
    as (y & Hy & Hky & Hl); [by rewrite Hk|].
  exists y. split; [done|]. split; [congruence|done].
Qed.

End FoldInsertTotal.

Section LexicalMapFacts.

Import Lexical.

Variable parseURL : string -> option parsedUrl.

(** X6.  The lexical scorer stores a score and a reason for exactly
    the ids it returns; every stored score is the score of one of the
    given documents with that id and reaches the threshold. *)
Theorem lexical_scores_recorded summaries query fullTextData :
  let words := Keywords.extractKeywords query in
  let r := performFallbackSearch parseURL summaries query fullTextData in
  (forall id, In id (results r) <-> is_Some (scoresMap r !! id))
  /\ (forall id, In id (results r) <-> is_Some (reasonsMap r !! id))
  /\ (forall id sc, scoresMap r !! id = Some sc ->
        minScore words <= sc
        /\ exists s, In s summaries /\ tab_id s = id
                     /\ sc = st_score
                               (scoreTab parseURL words fullTextData s)).
Proof.
  intros words r. unfold r, performFallbackSearch.
  fold words. cbn [results scoresMap reasonsMap].
  set (kept := List.filter (fun x => minScore words <=? st_score x)
                 (sortStable byScoreDesc
                    (map (scoreTab parseURL words fullTextData) summaries))).
  split; [|split].
  - intros id. rewrite in_map_iff. split.
    + intros (x & Hid & Hx).
      destruct (fold_set_hit st_id st_score kept id ∅ x Hx Hid)
        as (y & _ & _ & ->). by eexists.
    + intros [sc Hsc]. apply fold_set_Some in Hsc as [(x & Hx & Hid & _)|He].
      * by exists x.
      * by rewrite lookup_empty in He.
  - intros id. rewrite in_map_iff. split.
    + intros (x & Hid & Hx).
      destruct (fold_set_hit st_id lexicalReason kept id ∅ x Hx Hid)
        as (y & _ & _ & ->). by eexists.
    + intros [sc Hsc]. apply fold_set_Some in Hsc as [(x & Hx & Hid & _)|He].
      * by exists x.
      * by rewrite lookup_empty in He.
  - intros id sc Hsc.
    apply fold_set_Some in Hsc as [(x & Hx & Hid & ->)|He];
      [|by rewrite lookup_empty in He].
    unfold kept in Hx. apply filter_In in Hx as [Hx Hmin].
    apply Z.leb_le in Hmin. split; [done|].
    apply list_elem_of_In in Hx. rewrite sortStable_perm in Hx.
    apply list_elem_of_In, in_map_iff in Hx as (s & <- & Hs).
    exists s. by repeat split.
Qed.

End LexicalMapFacts.


(** ** Semantic scorer: references, hedging, stored reasons *)

Section SemanticRefFacts.

Import Semantic.

Lemma decimal_inj n m : decimal n = decimal m -> n = m.
Proof.
  unfold decimal. intros Heq.
  assert (Hu : Some (Nat.to_uint n) = Some (Nat.to_uint m)).
  { rewrite <- !NilEmpty.usu. by rewrite Heq. }
  injection Hu as Hu.
  rewrite <- (Unsigned.of_to n), <- (Unsigned.of_to m). by rewrite Hu.
Qed.

Lemma ref_inj i j :
  "tab" +:+ decimal (i + 1) = "tab" +:+ decimal (j + 1) -> i = j.
Proof.
  rewrite !append_cons, !append_nil_l. intros Heq.
  injection Heq as Heq. apply decimal_inj in Heq. lia.
Qed.

Lemma anonymousTabs_In summaries tab :
  In tab (anonymousTabs summaries) <->
  exists i s, summaries !! i = Some s /\ tab = anonymize i s.
Proof.
  unfold anonymousTabs. rewrite <- list_elem_of_In, elem_of_lookup_imap.
  split; intros (i & s & H1 & H2); exists i, s; done.
Qed.

Lemma refToTab_inv summaries rf tab :
  refToTab summaries !! rf = Some tab ->
  exists i s, summaries !! i = Some s /\ tab = anonymize i s
              /\ rf = "tab" +:+ decimal (i + 1).
Proof.
  unfold refToTab. intros Hl.
  apply (fold_set_Some a_ref (fun t => t)) in Hl
    as [(x & Hx & Hrf & ->)|He]; [|by rewrite lookup_empty in He].
  apply anonymousTabs_In in Hx as (i & s & Hs & ->).
  exists i, s. by repeat split.
Qed.

(** X7.  Every document can be addressed by the model and by no other
    name: the reference [tab] followed by the decimal position
    (counted from 1) resolves to the document at that position with its
    title, summary, tags, URL and id, a missing title or summary being
    replaced by "Untitled" or "No summary"; any other reference
    resolves to nothing. *)
Theorem refToTab_round_trip summaries :
  (forall i,
     refToTab summaries !! ("tab" +:+ decimal (i + 1))
     = anonymize i <$> summaries !! i)
  /\ (forall i s,
        summaries !! i = Some s ->
        refToId summaries (VStr ("tab" +:+ decimal (i + 1)))
        = Some (tab_id s))
  /\ (forall rf tab,
        refToTab summaries !! rf = Some tab ->
        exists i s, summaries !! i = Some s
                    /\ rf = "tab" +:+ decimal (i + 1)
                    /\ a_id tab = tab_id s).
Proof.
  assert (Hrt : forall i,
            refToTab summaries !! ("tab" +:+ decimal (i + 1))
            = anonymize i <$> summaries !! i).
  { intros i. destruct (summaries !! i) as [s|] eqn:Hs; cbn [fmap option_fmap option_map].
    - assert (Hin : In (anonymize i s) (anonymousTabs summaries))
        by (apply anonymousTabs_In; eauto).
      destruct (fold_set_hit a_ref (fun t => t) (anonymousTabs summaries)
                  ("tab" +:+ decimal (i + 1)) ∅ (anonymize i s) Hin eq_refl)
        as (y & Hy & Hrf & Hl).
      unfold refToTab. rewrite Hl. f_equal.
      apply anonymousTabs_In in Hy as (j & s' & Hs' & ->).
      cbn [a_ref anonymize] in Hrf. apply ref_inj in Hrf as ->.
      congruence.
    - destruct (refToTab summaries !! ("tab" +:+ decimal (i + 1)))
        as [tab|] eqn:Hl; [|done].
      apply refToTab_inv in Hl as (j & s & Hs' & _ & Hrf).
      apply ref_inj in Hrf as ->. congruence. }
  split; [exact Hrt|]. split.
  - intros i s Hs. unfold refToId. by rewrite Hrt, Hs.
  - intros rf tab Hl. apply refToTab_inv in Hl as (i & s & Hs & -> & ->).
    by exists i, s.
Qed.

End SemanticRefFacts.

(** ** Grounding of the quoted texts in the document *)

Section GroundingClaims.

Import Semantic.

Lemma refToTab_lookup summaries i d :
  summaries !! i = Some d ->
  refToTab summaries !! ("tab" +:+ decimal (i + 1)) = Some (anonymize i d).
Proof.
  intros Hs.
  assert (Hin : In (anonymize i d) (anonymousTabs summaries))
    by (apply anonymousTabs_In; eauto).
  destruct (fold_set_hit a_ref (fun t => t) (anonymousTabs summaries)
              ("tab" +:+ decimal (i + 1)) ∅ (anonymize i d) Hin eq_refl)
    as (y & Hy & Hrf & Hl).
  unfold refToTab. rewrite Hl. f_equal.
  apply anonymousTabs_In in Hy as (j & s' & Hs' & ->).
  cbn [a_ref anonymize] in Hrf. apply ref_inj in Hrf as ->.
  congruence.
Qed.

Lemma Substring_empty clean : Substring clean EmptyString -> clean = EmptyString.
Proof.
  intros (pre & post & H). destruct pre as [|c pre]; [|done].
  rewrite append_nil_l in H. by destruct clean.
Qed.

Lemma Substring_nil hay : Substring EmptyString hay.
Proof. exists EmptyString, hay. by rewrite !append_nil_l. Qed.

(** What the check reads of the anonymised record is what
    [occursInDocument] reads of the document. *)
Lemma occursIn_anonymize i d clean :
  occursIn (anonymize i d) clean <-> occursInDocument d clean.
Proof.
  unfold occursIn, occursInDocument, tagsLower, orElse.
  cbn [anonymize a_title a_summary a_url a_tags].
  change (toLowerCase "Untitled") with "untitled".
  change (toLowerCase "No summary") with "no summary".
  destruct (tab_title d) as [|ct title] eqn:Et;
    destruct (tab_summary d) as [|cs summary] eqn:Es; cbn [truthy].
  - split; [tauto|].
    intros [H|[H|H]].
    + apply Substring_empty in H as ->. left. apply Substring_nil.
    + apply Substring_empty in H as ->. left. apply Substring_nil.
    + tauto.
  - split; [tauto|].
    intros [H|[H|[H|[H|[[_ H]|[? _]]]]]]; try tauto; [|done].
    apply Substring_empty in H as ->. left. apply Substring_nil.
  - split; [tauto|].
    intros [H|[H|[H|[H|[[? _]|[_ H]]]]]]; try tauto; [|done].
    apply Substring_empty in H as ->. left. apply Substring_nil.
  - split; [tauto|].
    intros [H|[H|[H|[H|[[? _]|[? _]]]]]]; try tauto; done.
Qed.

Lemma quotedTexts_truthy text : quotedTexts text <> [] -> truthy text = true.
Proof. by destruct text. Qed.

(** C1 (amended).  Let the reason of a candidate quote something.
    - The candidate is excluded from the validated results whenever
      none of its quoted texts of at least 5 characters (quotes
      removed, lower-cased, trimmed) occurs in the lower-cased title,
      summary or URL of the document it refers to, in its lower-cased
      tags joined by spaces, or in the placeholder that stands for an
      empty title ("untitled") or an empty summary ("no summary"),
      whatever its relevance score.
    - As soon as one quoted text of at least 5 characters occurs
      there, the grounding check passes whatever else is quoted: the
      candidate is then accepted exactly when its score reaches the
      floor of the pass, its reason has no uncertainty phrase and the
      keyword coverage test passes. *)
Theorem ungrounded_candidate_excluded summaries queryKeywords rs r text :
  reason r = VStr text ->
  quotedTexts text <> [] ->
  ((forall i d q,
      ref r = VStr ("tab" +:+ decimal (i + 1)) ->
      summaries !! i = Some d ->
      In q (quotedTexts text) ->
      (5 <= String.length (cleanQuoted q))%nat ->
      ~ occursInDocument d (cleanQuoted q)) ->
   ~ In r (accepted summaries queryKeywords rs))
  /\ (forall i d q,
        ref r = VStr ("tab" +:+ decimal (i + 1)) ->
        summaries !! i = Some d ->
        In q (quotedTexts text) ->
        (5 <= String.length (cleanQuoted q))%nat ->
        occursInDocument d (cleanQuoted q) ->
        forall floor coverage,
          acceptsWith summaries queryKeywords floor coverage r
          = match relevanceScore r with
            | VNum sc =>
                negb (Qltb sc floor)
                && negb (hasUncertainty (toLowerCase text))
                && negb (Qltb (keywordMatchRatio queryKeywords
                                 (toLowerCase text)) coverage
                         && (String.length text <? 50)%nat)
            | _ => false
            end).
Proof.
  intros Hreason Hquoted. split.
  - intros Hnone Hin.
    assert (Hrej : forall floor coverage,
              acceptsWith summaries queryKeywords floor coverage r = false).
    { intros floor coverage.
      apply (ungrounded_rejected summaries queryKeywords _ _ r text);
        [done..|].
      intros rf tab q Hrf Htab Hq Hlen Hocc.
      apply refToTab_inv in Htab as (i & d & Hd & -> & ->).
      apply occursIn_anonymize in Hocc. by apply (Hnone i d q). }
    apply accepted_inv in Hin as [H|H];
      unfold firstPass, secondPass in H; by rewrite Hrej in H.
  - intros i d q Hrf Hd Hq Hlen Hocc floor coverage.
    unfold acceptsWith. rewrite Hrf, Hreason.
    destruct (relevanceScore r) as [| |sc| |?|]; try done.
    rewrite (refToTab_lookup summaries i d Hd).
    rewrite (quotedTexts_truthy text Hquoted).
    assert (Hg : grounded (anonymize i d) text = true).
    { unfold grounded. destruct (quotedTexts text) as [|q0 qs] eqn:Eq; [done|].
      apply foundMatch_spec. exists q. split; [done|]. split; [done|].
      by apply occursIn_anonymize. }
    rewrite Hg, !append_cons. cbn [truthy andb].
    by rewrite <- andb_assoc.
Qed.

End GroundingClaims.

Section GroundingChecks.

Import Semantic Examples.

Lemma ungrounded_candidate_excluded_witness :
  (relevanceScore badQuote = VNum 10
   /\ ~ In badQuote (accepted helloDocs ["hello"] [ItemObj badQuote]))
  /\ (tab_title <$> untitledDocs !! 0%nat = Some EmptyString
      /\ firstPass untitledDocs ["notes"] quotesPlaceholder = true).
Proof.
  split; (split; [reflexivity|]).
  - apply (proj1 (ungrounded_candidate_excluded helloDocs ["hello"]
                    [ItemObj badQuote] badQuote
                    "Keywords: 'zzzzz' in title of the hello page"
                    eq_refl ltac:(vm_compute; discriminate))).
    intros i d q Hrf Hd Hq _ Hocc.
    injection Hrf as Hrf. rewrite append_nil_l in Hrf.
    apply (decimal_inj 1 (i + 1)) in Hrf.
    assert (i = 0%nat) as -> by lia. injection Hd as <-.
    vm_compute in Hq. destruct Hq as [<-|[]].
    apply (occursIn_anonymize 0), matchesThisTab_spec in Hocc.
    vm_compute in Hocc. discriminate.
  - refine (eq_trans
              (proj2 (ungrounded_candidate_excluded untitledDocs ["notes"]
                        [] quotesPlaceholder
                        "Keywords: 'untitled' names this page of notes"
                        eq_refl ltac:(vm_compute; discriminate))
                 0%nat (mkTab 7 "" ["misc"]) "'untitled'"
                 eq_refl eq_refl _ _ _ 6%Q (2 # 5)%Q) _).
    + vm_compute. by left.
    + vm_compute. lia.
    + right. right. right. right. left. split; [reflexivity|].
      exists EmptyString, EmptyString. reflexivity.
    + reflexivity.
Defined.

End GroundingChecks.

Section SemanticResultFacts.

Import Semantic Examples.

(** X8.  A candidate whose reason contains one of the uncertainty
    phrases, in any letter case, is never among the validated
    candidates, whatever its score. *)
Theorem hedged_candidate_excluded summaries queryKeywords rs r text phrase :
  reason r = VStr text ->
  In phrase uncertaintyPhrases ->
  Substring phrase (toLowerCase text) ->
  ~ In r (accepted summaries queryKeywords rs).
Proof.
  intros Hreason Hphrase Hsub Hin.
  assert (Hu : hasUncertainty (toLowerCase text) = true).
  { unfold hasUncertainty. apply existsb_exists. exists phrase.
    split; [done|]. by apply includes_Substring. }
  apply accepted_inv in Hin as [H|H];
    apply acceptsWith_inv in H
      as (rf & sc & text' & tab & _ & _ & Htext & _ & _ & _ & Hno);
    congruence.
Qed.

Lemma hedged_candidate_excluded_witness :
  includes (toLowerCase "The 'hello world' guide MIGHT BE about greetings")
    "might be" = true
  /\ ~ In {| ref := VStr "tab1"; relevanceScore := VNum 10;
             reason :=
               VStr "The 'hello world' guide MIGHT BE about greetings" |}
         (accepted helloDocs ["hello"]
            [ItemObj
               {| ref := VStr "tab1"; relevanceScore := VNum 10;
                  reason :=
                    VStr "The 'hello world' guide MIGHT BE about greetings"
               |}]).
Proof.
  split; [reflexivity|].
  apply (hedged_candidate_excluded helloDocs ["hello"] _ _
           "The 'hello world' guide MIGHT BE about greetings" "might be").
  - reflexivity.
  - vm_compute. tauto.
  - apply includes_Substring. reflexivity.
Defined.

(** X9.  The semantic scorer returns only ids of the documents it was
    given, one per validated candidate and in their order; when the
    answer holds a [null] element, or no answer was obtained, it
    returns nothing and leaves the stored reasons and scores as they
    were. *)
Theorem semantic_ids_are_documents summaries queryKeywords reply existing :
  let r := tryOnDeviceSelectFromSummaries summaries queryKeywords reply
             existing in
  (forall id, In id (results r) ->
     exists s, In s summaries /\ tab_id s = id)
  /\ (forall rs, reply = Results rs ->
        List.length (results r)
        = List.length (accepted summaries queryKeywords rs))
  /\ ((forall rs, reply = Results rs -> existsb isNull rs = true) ->
      results r = []
      /\ reasonsMap r = reasonsMap existing
      /\ scoresMap r = scoresMap existing).
Proof.
  intros r.
  assert (Hres : forall c,
            firstPass summaries queryKeywords c = true
            \/ secondPass summaries queryKeywords c = true ->
            exists s, In s summaries
                      /\ refToId summaries (ref c) = Some (tab_id s)).
  { assert (Hany : forall floor coverage c,
              acceptsWith summaries queryKeywords floor coverage c = true ->
              exists s, In s summaries
                        /\ refToId summaries (ref c) = Some (tab_id s)).
    { intros floor coverage c H. apply acceptsWith_inv in H
        as (rf & _ & _ & tab & Hrf & _ & _ & Htab & _).
      pose proof (refToTab_inv _ _ _ Htab) as (i & s & Hs & -> & _).
      exists s. split.
      - apply list_elem_of_In. by eapply list_elem_of_lookup_2.
      - rewrite Hrf. cbn [refToId]. by rewrite Htab. }
    intros c [H|H]; by eapply Hany. }
  split; [|split].
  - intros id Hin. unfold r, tryOnDeviceSelectFromSummaries in Hin.
    destruct reply as [| | | | |rs]; try done.
    pose proof (accepted_inv summaries queryKeywords rs) as Hacc.
    unfold accepted in Hacc.
    destruct (validate summaries queryKeywords rs) as [v|]; [|done].
    cbn [results] in Hin. apply list_elem_of_In, list_elem_of_omap in Hin
      as (c & Hc & Hid).
    destruct (Hres c (Hacc c (proj1 (list_elem_of_In _ _) Hc)))
      as (s & Hs & Hid').
    exists s. split; [done|]. congruence.
  - intros rs ->. unfold r, tryOnDeviceSelectFromSummaries.
    pose proof (accepted_inv summaries queryKeywords rs) as Hacc.
    unfold accepted in *.
    destruct (validate summaries queryKeywords rs) as [v|]; [|done].
    cbn [results]. clear r. induction v as [|c v IH]; [done|].
    cbn [omap list_omap].
    destruct (Hres c (Hacc c (or_introl eq_refl))) as (s & _ & ->).
    cbn [List.length]. f_equal. apply IH. intros c' Hc'. apply Hacc.
    by right.
  - intros Hnull. unfold r, tryOnDeviceSelectFromSummaries.
    destruct reply as [| | | | |rs]; try done.
    pose proof (accepted_spec summaries queryKeywords rs) as Hacc.
    rewrite (Hnull rs eq_refl) in Hacc. unfold accepted in Hacc.
    unfold validate in *. rewrite filterResults_spec in *.
    by rewrite (Hnull rs eq_refl).
Qed.

End SemanticResultFacts.


Section SemanticStoreFacts.

Import Semantic Examples.

(** X10.  The reasons and scores the semantic scorer writes back are
    those already stored, overridden for exactly the returned ids: an
    id that is not returned keeps its stored reason and score, and a
    returned id gets the reason and the score of one and the same
    validated candidate, the last of those that refer to it. *)
Theorem semantic_reasons_merge summaries queryKeywords rs existing :
  let r := tryOnDeviceSelectFromSummaries summaries queryKeywords
             (Results rs) existing in
  (forall id, ~ In id (results r) ->
     reasonsMap r !! id = reasonsMap existing !! id
     /\ scoresMap r !! id = scoresMap existing !! id)
  /\ (forall id, In id (results r) ->
        exists before c after,
          accepted summaries queryKeywords rs = before ++ c :: after
          /\ refToId summaries (ref c) = Some id
          /\ (forall c', In c' after ->
                refToId summaries (ref c') <> Some id)
          /\ reason c = VStr (reasonOf c)
          /\ relevanceScore c = VNum (scoreOf c)
          /\ reasonsMap r !! id = Some (reasonOf c)
          /\ scoresMap r !! id = Some (scoreOf c)).
Proof.
  intros r.
  pose proof (accepted_inv summaries queryKeywords rs) as Hacc.
  unfold r, tryOnDeviceSelectFromSummaries, accepted in *.
  destruct (validate summaries queryKeywords rs) as [v|]; [|by split].
  cbn [results reasonsMap scoresMap]. split.
  - intros id Hnot.
    assert (Hmiss : forall c, In c v -> refToId summaries (ref c) <> Some id).
    { intros c Hc Hid. apply Hnot, list_elem_of_In, list_elem_of_omap.
      exists c. split; [by apply list_elem_of_In|done]. }
    split; (rewrite lookup_union_r; [done|]);
      by rewrite fold_insert_miss.
  - intros id Hin. apply list_elem_of_In, list_elem_of_omap in Hin
      as (c & Hc & Hid). apply list_elem_of_In in Hc.
    destruct (last_writer (fun c => refToId summaries (ref c)) v id c Hc Hid)
      as (before & y & after & Hv & Hy & Hmiss).
    exists before, y, after. split; [done|]. split; [done|].
    split; [done|].
    assert (Hy' : In y v) by (rewrite Hv; apply in_elt).
    assert (Hfields : reason y = VStr (reasonOf y)
                      /\ relevanceScore y = VNum (scoreOf y)).
    { destruct (Hacc y Hy') as [H|H];
        apply acceptsWith_inv in H
          as (rf & sc & text & tab & _ & Hsc & Htext & _);
        unfold reasonOf, scoreOf; by rewrite Hsc, Htext. }
    split; [apply Hfields|]. split; [apply Hfields|].
    split; apply lookup_union_Some_l; rewrite Hv;
      by apply (fold_insert_last (fun c => refToId summaries (ref c))).
Qed.

Lemma scanQuoted_unquoted s :
  Chars.forallChars (fun c => negb (isQuote c)) s = true ->
  scanQuoted s None = [].
Proof.
  induction s as [|c s IH]; [done|]. cbn [Chars.forallChars scanQuoted].
  intros H. apply andb_true_iff in H as [Hc Hs].
  apply negb_true_iff in Hc. rewrite Hc. by apply IH.
Qed.

(** X11.  A reason without a single-quote character is not checked
    against the document at all: the candidate is then accepted exactly
    when its reference resolves, its score reaches the floor, its
    reason has no uncertainty phrase and the keyword coverage test
    passes. *)
Theorem unquoted_reason_skips_grounding summaries queryKeywords floor
  coverage rf sc text :
  Chars.forallChars (fun c => negb (isQuote c)) text = true ->
  quotedTexts text = []
  /\ (forall tab, grounded tab text = true)
  /\ acceptsWith summaries queryKeywords floor coverage
       {| ref := VStr rf; relevanceScore := VNum sc; reason := VStr text |}
     = truthy rf && truthy text && negb (Qltb sc floor)
       && match refToTab summaries !! rf with
          | Some _ =>
              negb (hasUncertainty (toLowerCase text))
              && negb (Qltb (keywordMatchRatio queryKeywords
                               (toLowerCase text)) coverage
                       && (String.length text <? 50)%nat)
          | None => false
          end.
Proof.
  intros Hq. pose proof (scanQuoted_unquoted text Hq) as Hnone.
  assert (Hg : forall tab, grounded tab text = true).
  { intros tab. unfold grounded, quotedTexts. by rewrite Hnone. }
  split; [exact Hnone|]. split; [exact Hg|].
  unfold acceptsWith. cbn [ref relevanceScore reason].
  destruct (refToTab summaries !! rf) as [tab|]; [|done].
  by rewrite Hg.
Qed.

Lemma unquoted_reason_skips_grounding_witness :
  acceptsWith helloDocs ["hello"] 6 (2 # 5)
    {| ref := VStr "tab2"; relevanceScore := VNum 9;
       reason := VStr "This page says hello to dinosaurs" |}
  = true.
Proof.
  refine (eq_trans
            (proj2 (proj2
               (unquoted_reason_skips_grounding helloDocs ["hello"] 6 (2 # 5)
                  "tab2" 9 "This page says hello to dinosaurs" _))) _);
    reflexivity.
Defined.

End SemanticStoreFacts.

(** ** Summaries *)

Section SummaryFacts.

Import Summarize.

Variable parseURL : string -> option parsedUrl.
Variable safeJsonParse : string -> option parsedSummary.

Lemma clip_empty s : clip s = EmptyString -> s = EmptyString.
Proof.
  unfold clip. destruct (maxLength <? String.length s)%nat; [|done].
  intros H. apply (f_equal String.length) in H.
  rewrite length_append in H. cbn [String.length] in H. lia.
Qed.

Lemma clipForeign_Str v s :
  clipForeign v = Some (Str s) ->
  exists items, v = FArray items /\ (500 < List.length items)%nat
                /\ s = join "," (firstn 500 items) +:+ "...".
Proof.
  destruct v as [items| |long]; cbn [clipForeign]; [| done |by destruct long].
  unfold maxLength. destruct (500 <? List.length items)%nat eqn:E; [|done].
  intros [= <-]. exists items. apply Nat.ltb_lt in E. by repeat split.
Qed.

Lemma clipForeign_Kept v v' : clipForeign v = Some (Kept v') -> v' = v.
Proof.
  destruct v as [items| |long]; cbn [clipForeign].
  - destruct (maxLength <? List.length items)%nat; [done|]. by intros [= <-].
  - by intros [= <-].
  - destruct long; [done|]. by intros [= <-].
Qed.

(** The summary of the [try] block is a string of at most 503
    characters, or what [clipForeign] makes of a summary that is not a
    string. *)
Lemma fromModel_cases outcome :
  (exists s, fst (fromModel safeJsonParse outcome) = Str s
             /\ (String.length s <= 503)%nat)
  \/ (exists raw parsed v,
        outcome = PromptReturns raw
        /\ safeJsonParse
             (Semantic.orElse
                match raw with Some r => r | None => EmptyString end "{}")
           = Some parsed
        /\ p_summary parsed = Foreign v
        /\ clipForeign v = Some (fst (fromModel safeJsonParse outcome))).
Proof.
  unfold fromModel. destruct outcome as [|raw].
  { left. exists EmptyString. split; [done|cbn; lia]. }
  destruct (safeJsonParse _) as [parsed|] eqn:Hp.
  2:{ left. eexists. split; [done|apply clip_length]. }
  cbv zeta. destruct (p_summary parsed) as [|s|v] eqn:Hs.
  - left. exists EmptyString. split; [done|cbn; lia].
  - left. destruct (truthy s).
    + eexists. split; [done|apply clip_length].
    + exists EmptyString. split; [done|cbn; lia].
  - destruct (clipForeign v) as [summary|] eqn:Hc.
    + right. exists raw, parsed, v. by repeat split.
    + left. exists EmptyString. split; [done|cbn; lia].
Qed.

Lemma orElse_empty a b :
  Semantic.orElse a b = EmptyString <-> a = EmptyString /\ b = EmptyString.
Proof.
  unfold Semantic.orElse. destruct a; cbn [truthy]; [tauto|].
  split; [done|by intros [? _]].
Qed.

Lemma summarizeItem_fields session outcome item :
  let r := summarizeItem parseURL safeJsonParse session outcome item in
  s_id r = e_id item /\ s_title r = e_title item
  /\ s_url r = e_url item
  /\ s_summary r
     = (let m := if session && truthy (e_text item)
                 then fst (fromModel safeJsonParse outcome)
                 else Str EmptyString in
        if truthyValue m then m
        else Str (clip (Semantic.orElse (e_text item)
                          (Semantic.orElse (e_title item) (e_url item))))).
Proof.
  unfold summarizeItem. destruct (session && truthy (e_text item)).
  - destruct (fromModel safeJsonParse outcome) as [summary tags].
    cbn [fst]. by destruct (truthyValue summary).
  - done.
Qed.

(** X12.  A summary record keeps the id, title and URL of its page,
    and its summary is the empty string only for a page whose text,
    title and URL are all empty.  Without a model session, and
    whenever the parsed answer never carries a summary that is truthy
    and not a string, the summary is a string of at most 503
    characters (500 kept and three dots); without a session it is the
    unchanged page text when that has between 1 and 500 characters.
    A truthy summary that is not a string is not caught: the record
    then holds that value itself, or, for an array of more than 500
    elements, its first 500 elements joined by commas and followed by
    three dots, a string of any length; these are the only ways to a
    summary that is not a string of at most 503 characters. *)
Theorem summary_record_shape session outcome item :
  let r := summarizeItem parseURL safeJsonParse session outcome item in
  let answer raw :=
    safeJsonParse
      (Semantic.orElse
         match raw with Some x => x | None => EmptyString end "{}") in
  s_id r = e_id item /\ s_title r = e_title item
  /\ s_url r = e_url item
  /\ (s_summary r = Str EmptyString <->
      e_text item = EmptyString /\ e_title item = EmptyString
      /\ e_url item = EmptyString)
  /\ (session = false ->
      (exists s, s_summary r = Str s /\ (String.length s <= 503)%nat)
      /\ (e_text item <> EmptyString ->
          (String.length (e_text item) <= 500)%nat ->
          s_summary r = Str (e_text item)))
  /\ ((forall x parsed v,
         safeJsonParse x = Some parsed -> p_summary parsed <> Foreign v) ->
      exists s, s_summary r = Str s /\ (String.length s <= 503)%nat)
  /\ (forall v, s_summary r = Kept v ->
        session = true /\ e_text item <> EmptyString
        /\ exists raw parsed,
             outcome = PromptReturns raw /\ answer raw = Some parsed
             /\ p_summary parsed = Foreign v
             /\ clipForeign v = Some (Kept v))
  /\ (forall s, s_summary r = Str s -> (503 < String.length s)%nat ->
        session = true /\ e_text item <> EmptyString
        /\ exists raw parsed items,
             outcome = PromptReturns raw /\ answer raw = Some parsed
             /\ p_summary parsed = Foreign (FArray items)
             /\ (500 < List.length items)%nat
             /\ s = join "," (firstn 500 items) +:+ "...").
Proof.
  intros r answer.
  destruct (summarizeItem_fields session outcome item)
    as (Hid & Htitle & Hurl & Hsum).
  fold r in Hid, Htitle, Hurl, Hsum.
  split; [exact Hid|]. split; [exact Htitle|]. split; [exact Hurl|].
  rewrite Hsum. clear Hid Htitle Hurl Hsum r. cbv zeta.
  set (fallback := clip (Semantic.orElse (e_text item)
                           (Semantic.orElse (e_title item) (e_url item)))).
  assert (Hfall : Str fallback = Str EmptyString <->
                  e_text item = EmptyString /\ e_title item = EmptyString
                  /\ e_url item = EmptyString).
  { unfold fallback. split.
    - intros [= H]. apply clip_empty in H.
      apply orElse_empty in H as [H1 H2].
      by apply orElse_empty in H2 as [H2 H3].
    - intros (H1 & H2 & H3). by rewrite H1, H2, H3. }
  assert (Hflen : (String.length fallback <= 503)%nat) by apply clip_length.
  destruct (session && truthy (e_text item)) eqn:Hs.
  - apply andb_true_iff in Hs as [-> Htext].
    assert (Hne : e_text item <> EmptyString)
      by (intros He; by rewrite He in Htext).
    destruct (fromModel_cases outcome)
      as [(s & Hm & Hlen)|(raw & parsed & v & Ho & Hp & Hv & Hc)].
    + rewrite Hm. cbn [truthyValue].
      destruct (truthy s) eqn:Ht.
      * split; [|split; [done|]].
        { split; [intros [= ->]; done|]. by intros (He & _). }
        split; [by eauto|]. split; [done|].
        intros s' [= <-] Hlong. lia.
      * split; [exact Hfall|]. split; [done|]. split; [by eauto|].
        split; [done|]. intros s' [= <-] Hlong. lia.
    + destruct (fst (fromModel safeJsonParse outcome)) as [s|v'] eqn:Hm.
      * apply clipForeign_Str in Hc as (items & -> & Hlong & ->).
        assert (Ht : truthy (join "," (firstn 500 items) +:+ "...") = true).
        { destruct (join "," (firstn 500 items)) as [|c rest];
            by rewrite ?append_nil_l, ?append_cons. }
        cbn [truthyValue]. rewrite Ht.
        split.
        { split; [|by intros (He & _)].
          intros [= H]. by rewrite H in Ht. }
        split; [done|]. split.
        { intros Hno. by destruct (Hno _ _ _ Hp Hv). }
        split; [done|]. intros s' [= <-] _.
        split; [done|]. split; [done|]. by exists raw, parsed, items.
      * apply clipForeign_Kept in Hc as Hv'. subst v'.
        cbn [truthyValue].
        split; [split; [done|by intros (He & _)]|].
        split; [done|]. split.
        { intros Hno. by destruct (Hno _ _ _ Hp Hv). }
        split; [|done]. intros v' [= <-].
        split; [done|]. split; [done|]. by exists raw, parsed.
  - cbn [truthyValue truthy]. split; [exact Hfall|].
    split.
    { intros _. split; [by eauto|]. intros Hne Hlen.
      unfold fallback, clip, maxLength, Semantic.orElse.
      destruct (e_text item) as [|c text]; [done|]. cbn [truthy].
      destruct (500 <? String.length (String c text))%nat eqn:E; [|done].
      apply Nat.ltb_lt in E. lia. }
    split; [by eauto|]. split; [done|].
    intros s' [= <-] Hlong. lia.
Qed.

End SummaryFacts.

Section SummaryChecks.

Import Summarize Examples.

Lemma summary_record_shape_witness :
  textLength
    (s_summary
       (summarizeItem noUrl arrayAnswer true (PromptReturns (Some "x"))
          longPage))
  = Some 1502%nat
  /\ exists raw parsed items,
       PromptReturns (Some "x") = PromptReturns raw
       /\ arrayAnswer
            (Semantic.orElse
               match raw with Some x => x | None => EmptyString end "{}")
          = Some parsed
       /\ p_summary parsed = Foreign (FArray items)
       /\ (500 < List.length items)%nat.
Proof.
  split; [vm_compute; reflexivity|].
  pose proof (summary_record_shape noUrl arrayAnswer true
                (PromptReturns (Some "x")) longPage) as H.
  cbv zeta in H. destruct H as (_ & _ & _ & _ & _ & _ & _ & H).
  destruct (H (join "," (firstn 500 (repeat "ab" 501%nat)) +:+ "..."))
    as (_ & _ & raw & parsed & items & Ho & Hp & Hs & Hlen & _).
  - vm_compute. reflexivity.
  - vm_compute. lia.
  - by exists raw, parsed, items.
Defined.

End SummaryChecks.


(** ** Reconciler: what is shown and stored *)

Section ReconcilerMoreFacts.

Import Reconciler Examples.

Variable parseURL : string -> option parsedUrl.
Variable openTabs : list browserTab.
Variable pageText : browserTab -> string.
Variable abortedAtTurn : nat -> bool.




End ReconcilerMoreFacts.

Section ReconcilerMoreChecks.

Import Reconciler Examples.


End ReconcilerMoreChecks.


Section ReconcilerInvariants.

Import Reconciler Invariants LoopInvariant.

Variable parseURL : string -> option parsedUrl.
Variable openTabs : list browserTab.
Variable pageText : browserTab -> string.
Variable abortedAtTurn : nat -> bool.

Lemma afterSelection_consistent searchQuery ids w :
  consistent searchQuery (afterSelection false searchQuery ids w).
Proof.
  unfold afterSelection. destruct ids as [|a l]; [done|].
  repeat match goal with |- context [if ?b then _ else _] => destruct b end;
    by cbn.
Qed.

Lemma afterSelection_session searchQuery a l w :
  is_Some (aiSearchSession (afterSelection false searchQuery (a :: l) w)).
Proof.
  unfold afterSelection.
  repeat match goal with |- context [if ?b then _ else _] => destruct b end;
    by cbn.
Qed.

Lemma onAiAnswer_consistent abortedAtAnswer searchQuery fallbackIds ids w :
  consistent searchQuery w -> is_Some (aiSearchSession w) ->
  consistent searchQuery (onAiAnswer abortedAtAnswer fallbackIds ids w).
Proof.
  intros Hc [s Hs]. unfold onAiAnswer.
  destruct abortedAtAnswer; [done|]. destruct ids as [|a l]; [done|].
  unfold consistent in *. rewrite Hs in Hc. destruct Hc as (Hq & Ht & Hne).
  destruct (bool_decide (a :: l = fallbackIds)); cbn; rewrite Hs; cbn.
  - done.
  - by rewrite Hq.
Qed.

Lemma awaiting_selected abortedAfterFallback reply aggressiveSearchEnabled
  aiOnlyEnabled summaries searchQuery w fallbackIds :
  awaiting
    (selectFromSummariesWithAIOrFallback parseURL openTabs pageText
       abortedAtTurn abortedAfterFallback reply aggressiveSearchEnabled
       aiOnlyEnabled summaries searchQuery w)
  = Some fallbackIds ->
  exists a l,
    selected
      (selectFromSummariesWithAIOrFallback parseURL openTabs pageText
         abortedAtTurn abortedAfterFallback reply aggressiveSearchEnabled
         aiOnlyEnabled summaries searchQuery w)
    = a :: l.
Proof.
  unfold selectFromSummariesWithAIOrFallback.
  destruct (TagSearch.isHashtagSearch _); [done|].
  destruct aggressiveSearchEnabled.
  { by destruct (aggressiveSearch _ _ _ _ _ _ _). }
  destruct aiOnlyEnabled.
  { by destruct (idsFromAI reply summaries searchQuery). }
  destruct abortedAfterFallback; [done|].
  destruct (results _) as [|a l]; [|by eauto].
  by destruct (idsFromAI reply summaries searchQuery).
Qed.

Lemma publish_recorded summaries words i tab t p :
  recorded summaries openTabs words p ->
  Lexical.minScore words <= Lexical.score t ->
  In tab openTabs -> In (bt_id tab) (map tab_id summaries) ->
  recorded summaries openTabs words (publish openTabs i tab t p).
Proof.
  intros Hp Hmin Htab Hsum id Hin. cbn [publish found reasons scores] in *.
  destruct (decide (id = bt_id tab)) as [->|Hne].
  - rewrite !lookup_insert_eq. split; [by eexists|]. split; [by eexists|].
    split; [by apply in_map|done].
  - rewrite !lookup_insert_ne by done. apply Hp.
    apply in_app_or in Hin as [Hin|[Hin|[]]]; [done|congruence].
Qed.

Lemma report_recorded summaries words msg p :
  recorded summaries openTabs words p ->
  recorded summaries openTabs words (report msg p).
Proof. intros Hp id Hid. exact (Hp id Hid). Qed.

Lemma everyTenth_recorded summaries words i p :
  recorded summaries openTabs words p ->
  recorded summaries openTabs words (everyTenth openTabs i p).
Proof.
  intros Hp. unfold everyTenth. destruct (_ =? 0)%nat; [|done].
  by apply report_recorded.
Qed.

Lemma searchTab_recorded summaries words i tab summary p :
  recorded summaries openTabs words p ->
  In tab openTabs -> In (bt_id tab) (map tab_id summaries) ->
  recorded summaries openTabs words
    (searchTab parseURL openTabs pageText words i tab summary p).
Proof.
  intros Hp Htab Hsum. unfold searchTab. cbv zeta.
  destruct (Lexical.minScore words <=? _) eqn:E1.
  { apply publish_recorded; try done. by apply Z.leb_le. }
  apply everyTenth_recorded.
  destruct (isScriptableUrl parseURL (bt_url tab)); [|done].
  destruct (truthy (pageText tab)); [|by apply report_recorded].
  match goal with
  | |- recorded _ _ _ (if ?b then _ else _) => destruct b eqn:E2
  end; [|by apply report_recorded].
  apply publish_recorded; [by apply report_recorded| |done|done].
  by apply Z.leb_le.
Qed.

Lemma aggressiveLoop_recorded summaries words rest : forall i p,
  (forall tab, In tab rest -> In tab openTabs) ->
  recorded summaries openTabs words p ->
  recorded summaries openTabs words
    (aggressiveLoop parseURL openTabs pageText abortedAtTurn summaries
       words i rest p).
Proof.
  induction rest as [|tab rest IH]; intros i p Hrest Hp; [done|].
  cbn [aggressiveLoop].
  assert (Hrest' : forall t, In t rest -> In t openTabs)
    by (intros t Ht; apply Hrest; by right).
  destruct (List.find _ summaries) as [summary|] eqn:Hf; [|by apply IH].
  destruct (abortedAtTurn i); [done|].
  apply IH; [done|]. apply find_some in Hf as [Hs Heq].
  apply Z.eqb_eq in Heq.
  apply searchTab_recorded; [done|apply Hrest; by left|].
  rewrite <- Heq. by apply in_map.
Qed.

(** X15.  Whatever the abort signal does, every id the aggressive
    search returns is the id of an open tab that has a summary, and the
    loop has stored for it a reason and a score reaching the threshold
    [max (termCount * 2) 4]; every returned id is labelled as a keyword
    result. *)
Theorem aggressive_results_recorded summaries searchQuery w :
  let words := Keywords.extractKeywords searchQuery in
  let p :=
    aggressiveLoop parseURL openTabs pageText abortedAtTurn summaries
      words 0 openTabs
      {| found := []; reasons := ∅; scores := ∅;
         now := setStatus (startStatus (List.length openTabs)) w |} in
  let r :=
    aggressiveSearch parseURL openTabs pageText abortedAtTurn summaries
      searchQuery w in
  fst r = found p
  /\ recorded summaries openTabs words p
  /\ (forall id, In id (fst r) ->
        tabResultSources (snd r) !! id = Some Keyword).
Proof.
  intros words p r. split; [done|]. split.
  - apply aggressiveLoop_recorded; [done|]. by intros id [].
  - intros id Hin. unfold r, aggressiveSearch. cbn [snd fst] in *.
    by apply markAll_lookup.
Qed.

End ReconcilerInvariants.


(** ** Search history *)

Section HistoryFacts.

Import History.

Lemma List_filter_all {A} (f : A -> bool) l :
  (forall x, In x l -> f x = true) -> List.filter f l = l.
Proof.
  induction l as [|x l IH]; intros Hf; cbn [List.filter]; [done|].
  rewrite (Hf x) by (by left). f_equal. apply IH. intros y Hy.
  apply Hf. by right.
Qed.

Lemma In_firstn {A} n (l : list A) x : In x (firstn n l) -> In x l.
Proof.
  revert l. induction n as [|n IH]; intros [|y l]; cbn [firstn]; try done.
  intros [->|Hin]; [by left|]. right. by apply IH.
Qed.

Lemma others_kept q arr n x :
  In x (firstn n (List.filter (otherQuery q) arr)) -> otherQuery q x = true.
Proof. intros Hin. apply In_firstn, filter_In in Hin. tauto. Qed.

Lemma NoDup_queries_filter q arr :
  NoDup (map h_query arr) ->
  NoDup (map h_query (List.filter (otherQuery q) arr)).
Proof.
  induction arr as [|x arr IH]; intros Hnd; [done|].
  cbn [map] in Hnd. apply NoDup_cons in Hnd as [Hx Hnd].
  cbn [List.filter]. destruct (otherQuery q x); [|by apply IH].
  cbn [map]. apply NoDup_cons. split; [|by apply IH].
  rewrite list_elem_of_In in *. intros Hin. apply Hx.
  apply in_map_iff in Hin as (y & Hy & Hin). apply filter_In in Hin as [Hin _].
  apply in_map_iff. eauto.
Qed.

Lemma dayOf_insert key key' l store :
  dayOf (<[key := l]> store) key'
  = if decide (key = key') then l else dayOf store key'.
Proof.
  unfold dayOf. destruct (decide (key = key')) as [->|Hne].
  - by rewrite lookup_insert_eq.
  - by rewrite lookup_insert_ne.
Qed.

(** X16.  After a search is logged, the day's history starts with the
    new entry, never has more than 5 entries, holds each query at most
    once if it did before, consists of the new entry and earlier
    entries for other queries, and the histories of other days are
    untouched; the chips shown are this list. *)
Theorem logSearchHistory_invariants key searchQuery ids stamp store :
  let entry :=
    {| h_query := searchQuery; h_tabIds := ids; h_at := stamp |} in
  let store' := logSearchHistory key searchQuery ids stamp store in
  head (dayOf store' key) = Some entry
  /\ (List.length (dayOf store' key) <= 5)%nat
  /\ (NoDup (map h_query (dayOf store key)) ->
      NoDup (map h_query (dayOf store' key)))
  /\ (forall item, In item (dayOf store' key) ->
        item = entry
        \/ (In item (dayOf store key) /\ h_query item <> searchQuery))
  /\ (forall key', key' <> key -> dayOf store' key' = dayOf store key')
  /\ loadHistory key store' = dayOf store' key.
Proof.
  intros entry store'. unfold store', logSearchHistory, loadHistory.
  fold entry. rewrite !dayOf_insert.
  destruct (decide (key = key)) as [_|]; [|done].
  set (others := List.filter (otherQuery searchQuery) (dayOf store key)).
  split; [done|]. split; [apply firstn_le_length|].
  split; [|split; [|split]].
  - intros Hnd. rewrite <- firstn_map. apply NoDup_firstn.
    cbn [map]. apply NoDup_cons. split; [|by apply NoDup_queries_filter].
    rewrite list_elem_of_In, in_map_iff. intros (y & Hq & Hy).
    apply filter_In in Hy as [_ Hy]. unfold otherQuery in Hy.
    cbn [h_query] in Hq. rewrite Hq, String.eqb_refl in Hy. done.
  - intros item Hin. apply In_firstn in Hin as [<-|Hin]; [by left|].
    right. apply filter_In in Hin as [Hin Ho]. split; [done|].
    unfold otherQuery in Ho. apply negb_true_iff, String.eqb_neq in Ho. done.
  - intros key' Hne. rewrite dayOf_insert.
    by destruct (decide (key = key')) as [->|_].
  - apply take_idemp.
Qed.

(** X17.  Logging the same query again only refreshes its entry: the
    day's history is what logging it once with the later data gives.
    Removing a query leaves no entry for it, and removing a query that
    was just logged leaves the (at most 4) earlier entries that were
    kept beside it. *)
Theorem history_relog_and_remove key searchQuery ids1 stamp1 ids2 stamp2
  store :
  dayOf (logSearchHistory key searchQuery ids2 stamp2
           (logSearchHistory key searchQuery ids1 stamp1 store)) key
  = dayOf (logSearchHistory key searchQuery ids2 stamp2 store) key
  /\ (forall item,
        In item (dayOf (removeFromHistory key searchQuery store) key) ->
        h_query item <> searchQuery)
  /\ dayOf (removeFromHistory key searchQuery
              (logSearchHistory key searchQuery ids1 stamp1 store)) key
     = firstn 4 (List.filter (otherQuery searchQuery) (dayOf store key)).
Proof.
  unfold logSearchHistory, removeFromHistory. rewrite !dayOf_insert.
  destruct (decide (key = key)) as [_|]; [|done].
  set (others := List.filter (otherQuery searchQuery) (dayOf store key)).
  assert (Hrest : List.filter (otherQuery searchQuery)
                    (firstn 5
                       ({| h_query := searchQuery; h_tabIds := ids1;
                           h_at := stamp1 |} :: others))
                  = firstn 4 others).
  { cbn [firstn List.filter]. unfold otherQuery at 1. cbn [h_query].
    rewrite String.eqb_refl. cbn [negb].
    apply List_filter_all. intros x Hx. by eapply others_kept. }
  split; [|split].
  - rewrite Hrest. cbn [firstn]. f_equal. apply take_idemp.
  - intros item Hin. apply filter_In in Hin as [_ Ho].
    unfold otherQuery in Ho. by apply negb_true_iff, String.eqb_neq in Ho.
  - exact Hrest.
Qed.

End HistoryFacts.


(** ** Summary cache *)

Section CacheFacts.

Import Reconciler SummaryCache Examples.

Lemma cleanup_filter currentTabIds now (tabSummaries : gmap Z cached) :
  cleanup currentTabIds now tabSummaries
  = filter (fun kv => keep currentTabIds now kv = true) tabSummaries.
Proof.
  unfold cleanup. case_bool_decide as Hsize; [done|].
  symmetry. apply map_subseteq_size_eq; [apply map_filter_subseteq|].
  lia.
Qed.

Lemma cleanup_lookup currentTabIds now (tabSummaries : gmap Z cached) id e :
  cleanup currentTabIds now tabSummaries !! id = Some e <->
  tabSummaries !! id = Some e /\ In id currentTabIds
  /\ now - c_timestamp e < 24 * 60 * 60 * 1000.
Proof.
  rewrite cleanup_filter, map_lookup_filter_Some.
  unfold keep, fresh, maxAgeMs. cbn [fst snd].
  rewrite andb_true_iff, bool_decide_eq_true, Z.ltb_lt, list_elem_of_In.
  tauto.
Qed.

(** X18.  After the hourly cleanup of the service worker the cache
    holds exactly the entries it held before that belong to an open tab
    and are younger than 24 hours, unchanged, whether or not the
    cleaned object had to be written back; running the cleanup again
    at the same time with the same open tabs changes nothing more. *)
Theorem cleanup_keeps_fresh_open currentTabIds now
  (tabSummaries : gmap Z cached) :
  (forall id e,
     cleanup currentTabIds now tabSummaries !! id = Some e <->
     tabSummaries !! id = Some e /\ In id currentTabIds
     /\ now - c_timestamp e < 24 * 60 * 60 * 1000)
  /\ cleanup currentTabIds now (cleanup currentTabIds now tabSummaries)
     = cleanup currentTabIds now tabSummaries.
Proof.
  split; [intros id e; apply cleanup_lookup|].
  apply map_eq. intros id. apply option_eq. intros e.
  rewrite !cleanup_lookup. tauto.
Qed.

Variable parseURL : string -> option parsedUrl.

Lemma summaryFor_cleanup currentTabIds now tabSummaries t :
  In (bt_id t) currentTabIds ->
  summaryFor parseURL (cleanup currentTabIds now tabSummaries) now t
  = summaryFor parseURL tabSummaries now t.
Proof.
  intros Hopen. unfold summaryFor.
  destruct (cleanup currentTabIds now tabSummaries !! bt_id t) as [e|] eqn:Hc.
  - apply cleanup_lookup in Hc as (-> & _). done.
  - destruct (tabSummaries !! bt_id t) as [e|] eqn:Hm; [|done].
    destruct (usable t now e) eqn:Hu; [|done].
    unfold usable in Hu. apply andb_true_iff in Hu as [Hu _].
    apply andb_true_iff in Hu as [_ Hfresh].
    assert (Some e = None); [|done]. rewrite <- Hc. symmetry.
    apply cleanup_lookup. split; [done|]. split; [done|].
    unfold fresh, maxAgeMs in Hfresh. by apply Z.ltb_lt in Hfresh.
Qed.

(** X19.  The cleanup is invisible to a search: for tabs that are
    open, [getExistingSummaries] returns the same summaries from the
    cleaned cache as from the cache before the cleanup, at the same
    time. *)
Theorem cleanup_invisible_to_search currentTabIds now tabSummaries tabs :
  (forall t, In t tabs -> In (bt_id t) currentTabIds) ->
  getExistingSummaries parseURL tabs
    (cleanup currentTabIds now tabSummaries) now
  = getExistingSummaries parseURL tabs tabSummaries now.
Proof.
  intros Hopen. unfold getExistingSummaries. apply map_ext_in.
  intros t Ht. apply summaryFor_cleanup. by apply Hopen.
Qed.

(** X20.  [getExistingSummaries] returns one record per tab, in the
    order of the tabs and with their ids.  A cached summary is never
    served for a tab whose URL differs from the cached URL, nor when it
    is 24 hours old or older, nor after the service worker has
    forgotten the tab: the record is then built from the title and the
    URL alone and carries at most 3 tags. *)
Theorem stale_summaries_never_served now tabSummaries :
  (forall tabs,
     map tab_id (getExistingSummaries parseURL tabs tabSummaries now)
     = map bt_id tabs)
  /\ (forall t e,
        tabSummaries !! bt_id t = Some e ->
        c_url e <> bt_url t \/ 24 * 60 * 60 * 1000 <= now - c_timestamp e ->
        summaryFor parseURL tabSummaries now t = fallbackRecord parseURL t)
  /\ (forall t,
        summaryFor parseURL (forget (bt_id t) tabSummaries) now t
        = fallbackRecord parseURL t)
  /\ (forall t,
        (List.length (tab_tags (fallbackRecord parseURL t)) <= 3)%nat
        /\ tab_summary (fallbackRecord parseURL t)
           = fallbackSummary parseURL t).
Proof.
  split; [|split; [|split]].
  - intros tabs. unfold getExistingSummaries. rewrite map_map.
    apply map_ext. intros t. unfold summaryFor.
    destruct (tabSummaries !! bt_id t) as [e|]; [|done].
    by destruct (usable t now e).
  - intros t e He Hstale. unfold summaryFor. rewrite He.
    destruct (usable t now e) eqn:Hu; [|done].
    unfold usable in Hu. apply andb_true_iff in Hu as [Hu _].
    apply andb_true_iff in Hu as [Hurl Hfresh].
    apply String.eqb_eq in Hurl. unfold fresh, maxAgeMs in Hfresh.
    apply Z.ltb_lt in Hfresh. destruct Hstale; [done|lia].
  - intros t. unfold summaryFor, forget.
    destruct (tabSummaries !! bt_id t) as [e|] eqn:He.
    + by rewrite lookup_delete_eq.
    + by rewrite He.
  - intros t. split; [|done]. cbn [fallbackRecord tab_tags].
    apply generateFallbackTags_bound.
Qed.

End CacheFacts.

Section CacheChecks.

Import Reconciler SummaryCache Examples.

Lemma cleanup_invisible_to_search_witness :
  getExistingSummaries noUrl twoTabs
    (cleanup [11; 22] 100000000
       {[ 11 := {| c_url := ""; c_summary := "cached"; c_tags := None;
                   c_timestamp := 99999999 |};
          33 := {| c_url := ""; c_summary := "gone"; c_tags := None;
                   c_timestamp := 99999999 |} ]})
    100000000
  = getExistingSummaries noUrl twoTabs
      {[ 11 := {| c_url := ""; c_summary := "cached"; c_tags := None;
                  c_timestamp := 99999999 |};
         33 := {| c_url := ""; c_summary := "gone"; c_tags := None;
                  c_timestamp := 99999999 |} ]}
      100000000.
Proof.
  apply (cleanup_invisible_to_search noUrl [11; 22] 100000000).
  intros t [<-|[<-|[]]]; cbn; tauto.
Defined.

End CacheChecks.


(** ** Result list *)

Section RenderFacts.

Import Reconciler Render.

Lemma indexOf_In ids id : In id ids <-> 0 <= indexOf ids id.
Proof.
  induction ids as [|x ids IH]; cbn [indexOf In]; [split; [done|lia]|].
  destruct (Z.eqb_spec x id) as [->|Hne]; [split; [lia|by left]|].
  destruct (indexOf ids id) as [|n|n] eqn:E.
  - split; [lia|]. intros _. right. apply IH. lia.
  - split; [lia|]. intros _. right. apply IH. lia.
  - split; [|lia]. intros [?|Hin]; [done|]. apply IH in Hin. lia.
Qed.

Lemma indexOf_lookup ids id :
  0 <= indexOf ids id -> ids !! Z.to_nat (indexOf ids id) = Some id.
Proof.
  induction ids as [|x ids IH]; cbn [indexOf]; [lia|].
  destruct (Z.eqb_spec x id) as [->|Hne]; [done|].
  destruct (indexOf ids id) as [|n|n] eqn:E; intros H; [| |lia].
  - cbn. apply IH. lia.
  - replace (Z.to_nat (Z.pos n + 1)) with (S (Z.to_nat (Z.pos n))) by lia.
    cbn [lookup list_lookup]. apply IH. lia.
Qed.

Lemma byIndex_total ids a b : byIndex ids a b = true \/ byIndex ids b a = true.
Proof. unfold byIndex. rewrite !Z.leb_le. lia. Qed.

Lemma byIndex_trans ids a b c :
  byIndex ids a b = true -> byIndex ids b c = true -> byIndex ids a c = true.
Proof. unfold byIndex. rewrite !Z.leb_le. lia. Qed.

Variable collate : string -> string -> bool.

(** X21.  With the order kept, the result list shows open tabs whose
    id is in the given id list, ordered by the position of their id in
    that list, at most 10 per page; together with the tabs held back
    for later pages they are exactly the open tabs whose id is in the
    list, and the "show more" button is displayed exactly when some tab
    is held back. *)
Theorem shown_tabs_follow_id_order allTabs selectedIds currentResultsPage :
  let r := renderResultsPage collate allTabs selectedIds true
             currentResultsPage in
  exists rest,
    Permutation (fst r ++ rest)
      (List.filter (fun t => bool_decide (bt_id t ∈ selectedIds)) allTabs)
    /\ StronglySorted
         (fun a b =>
            indexOf selectedIds (bt_id a) <= indexOf selectedIds (bt_id b))
         (fst r ++ rest)
    /\ List.length (fst r)
       = Nat.min (currentResultsPage * 10)
           (List.length (fst r ++ rest))
    /\ (snd r = true <-> rest <> [])
    /\ (forall t, In t (fst r) ->
          In t allTabs
          /\ selectedIds !! Z.to_nat (indexOf selectedIds (bt_id t))
             = Some (bt_id t)).
Proof.
  intros r. unfold r, renderResultsPage, RESULTS_PER_PAGE. cbn [fst snd].
  set (selectedTabs :=
         List.filter (fun t => bool_decide (bt_id t ∈ selectedIds)) allTabs).
  set (sorted := sortStable (byIndex selectedIds) selectedTabs).
  set (endIdx := (currentResultsPage * 10)%nat).
  exists (skipn endIdx sorted). rewrite firstn_skipn.
  split; [apply sortStable_perm|]. split; [|split; [|split]].
  - eapply StronglySorted_weaken;
      [|apply (sortStable_sorted (byIndex selectedIds)
                 (byIndex_total selectedIds) (byIndex_trans selectedIds))].
    intros a b. unfold ahead, byIndex. by rewrite Z.leb_le.
  - apply length_firstn.
  - rewrite Nat.ltb_lt. split.
    + intros Hlt Hnil. apply (f_equal List.length) in Hnil.
      rewrite length_skipn in Hnil. cbn in Hnil. lia.
    + intros Hne. destruct (skipn endIdx sorted) eqn:E; [done|].
      apply (f_equal List.length) in E. rewrite length_skipn in E.
      cbn in E. lia.
  - intros t Ht. apply In_firstn in Ht.
    apply list_elem_of_In in Ht. unfold sorted in Ht.
    rewrite sortStable_perm in Ht. apply list_elem_of_In in Ht.
    unfold selectedTabs in Ht. apply filter_In in Ht as [Ht Hsel].
    split; [done|]. apply bool_decide_eq_true in Hsel.
    apply indexOf_lookup, indexOf_In. by apply list_elem_of_In.
Qed.

End RenderFacts.

(** ** The stored session and the result list *)

Section SessionFacts.

Import Reconciler Invariants Render Examples.

Variable parseURL : string -> option parsedUrl.
Variable openTabs : list browserTab.
Variable pageText : browserTab -> string.

(** X14.  In every mode and whatever was shown before, a search that
    is never cancelled ends with the id list handed to [renderResultsList] and the stored session in
    agreement: either that list is empty and no session is stored, or
    the session is stored for the query and holds exactly that list,
    which is not empty (also after the model's late answer replaced
    the lexical list).  Every tab then on a page of the result list is
    one of the tabs given to it and has its id in the session.  The
    session's list is not the list of tabs on screen, though: when the
    model names a document twice, the session holds its id twice and
    the status counts it twice, while the tab is shown once. *)
Theorem shown_list_matches_session reply aggressiveSearchEnabled
  aiOnlyEnabled summaries searchQuery isRestore w :
  let w' :=
    search parseURL openTabs pageText (fun _ => false) false false reply
      aggressiveSearchEnabled aiOnlyEnabled summaries searchQuery false
      (clearOldResults isRestore w) in
  let repeated :=
    search noUrl twoTabs (fun _ => EmptyString) (fun _ => false) false false
      repeatReply false false helloDocs "hello" false
      (clearOldResults false emptyWorld) in
  consistent searchQuery w'
  /\ (forall collate allTabs page t,
        In t (fst (renderResultsPage collate allTabs (rendered w') true
                     page)) ->
        In t allTabs
        /\ exists s, aiSearchSession w' = Some s /\ In (bt_id t) (tabIds s))
  /\ (aiSearchSession repeated
        = Some {| query := "hello"; tabIds := [22; 11; 22] |}
      /\ status repeated = "Found 3 tabs."
      /\ forall collate page,
           map bt_id
             (fst (renderResultsPage collate twoTabs (rendered repeated)
                     true (S page)))
           = [22; 11]).
Proof.
  intros w' repeated.
  assert (Hc : consistent searchQuery w').
  { unfold w', search.
    destruct (awaiting _) as [fallbackIds|] eqn:Haw;
      [|apply afterSelection_consistent].
    apply awaiting_selected in Haw as (a & l & ->).
    apply onAiAnswer_consistent.
    - apply afterSelection_consistent.
    - apply afterSelection_session. }
  split; [exact Hc|]. split.
  - intros collate allTabs page t Ht.
    unfold renderResultsPage in Ht. cbn [fst] in Ht.
    apply In_firstn, list_elem_of_In in Ht.
    rewrite sortStable_perm in Ht.
    apply list_elem_of_In, filter_In in Ht as [Ht Hsel].
    split; [exact Ht|]. apply bool_decide_eq_true in Hsel.
    unfold consistent in Hc.
    destruct (aiSearchSession w') as [s|].
    + destruct Hc as (_ & Hids & _). exists s. split; [done|].
      rewrite Hids. by apply list_elem_of_In.
    + rewrite Hc in Hsel. by apply elem_of_nil in Hsel.
  - split; [reflexivity|]. split; [reflexivity|].
    intros collate page. unfold renderResultsPage. cbn [fst].
    change (rendered repeated) with [22; 11; 22].
    set (sorted := sortStable _ _).
    assert (Hs : sorted = [ {| bt_id := 22;
                               bt_title := "Food for thought: essays";
                               bt_url := "" |};
                            {| bt_id := 11; bt_title := "Hello World guide";
                               bt_url := "" |} ])
      by (vm_compute; reflexivity).
    rewrite Hs. unfold RESULTS_PER_PAGE.
    rewrite firstn_all2; [reflexivity|]. cbn [List.length]. lia.
Qed.

End SessionFacts.

(** ** Pages that can be read *)

Section ScriptableFacts.

Import Reconciler.

Variable parseURL : string -> option parsedUrl.

(** X22.  A URL is treated as readable exactly when it parses, its
    protocol is [http:] or [https:], and its host is neither
    [chrome.google.com] nor [chromewebstore.google.com]; a string that
    is not a URL is never readable. *)
Theorem isScriptableUrl_spec url :
  isScriptableUrl parseURL url = true <->
  exists u, parseURL url = Some u
            /\ (protocol u = "http:" \/ protocol u = "https:")
            /\ hostname u <> "chrome.google.com"
            /\ hostname u <> "chromewebstore.google.com".
Proof.
  unfold isScriptableUrl. destruct (parseURL url) as [[proto host path]|];
    [|split; [done|by intros (? & ? & _)]].
  cbn [protocol hostname pathname].
  assert (Hrhs :
    (exists u, Some {| protocol := proto; hostname := host;
                       pathname := path |} = Some u
               /\ (protocol u = "http:" \/ protocol u = "https:")
               /\ hostname u <> "chrome.google.com"
               /\ hostname u <> "chromewebstore.google.com")
    <-> (proto = "http:" \/ proto = "https:")
        /\ host <> "chrome.google.com"
        /\ host <> "chromewebstore.google.com").
  { split.
    - intros (u & Hu & H). by injection Hu as <-.
    - intros H. by eexists. }
  rewrite Hrhs. clear Hrhs.
  destruct (String.eqb_spec proto "http:") as [->|Hp1].
  - destruct (String.eqb_spec host "chrome.google.com"),
      (String.eqb_spec host "chromewebstore.google.com"),
      (startsWith path "/webstore"); cbn; split; try done; tauto.
  - destruct (String.eqb_spec proto "https:") as [->|Hp2].
    + destruct (String.eqb_spec host "chrome.google.com"),
        (String.eqb_spec host "chromewebstore.google.com"),
        (startsWith path "/webstore"); cbn; split; try done; tauto.
    + cbn. split; [done|]. tauto.
Qed.

End ScriptableFacts.


(** ** Semantic scorer: the two passes *)

Section PassFacts.

Import Semantic Examples.

Lemma Qltb_lt x y : Qltb x y = true <-> (x < y)%Q.
Proof.
  unfold Qltb. rewrite negb_true_iff. split.
  - intros H. apply Qnot_le_lt. intros Hle.
    apply Qle_bool_iff in Hle. congruence.
  - intros Hlt. destruct (Qle_bool y x) eqn:E; [|done].
    apply Qle_bool_iff in E. by apply Qlt_not_le in Hlt.
Qed.

Lemma Qltb_mono x y y' : (y' <= y)%Q -> Qltb x y = false -> Qltb x y' = false.
Proof.
  intros Hle H. destruct (Qltb x y') eqn:E; [|done].
  apply Qltb_lt in E. assert (Hlt : Qltb x y = true); [|congruence].
  apply Qltb_lt. by eapply Qlt_le_trans.
Qed.

(** X23.  The relaxed pass is a relaxation: every candidate the strict
    pass accepts is accepted by the relaxed pass too, and in general
    lowering the score floor or the coverage threshold never rejects a
    candidate that was accepted. *)
Theorem relaxed_pass_accepts_more summaries queryKeywords r :
  (firstPass summaries queryKeywords r = true ->
   secondPass summaries queryKeywords r = true)
  /\ (forall floor floor' coverage coverage',
        (floor' <= floor)%Q -> (coverage' <= coverage)%Q ->
        acceptsWith summaries queryKeywords floor coverage r = true ->
        acceptsWith summaries queryKeywords floor' coverage' r = true).
Proof.
  assert (Hmono : forall floor floor' coverage coverage',
            (floor' <= floor)%Q -> (coverage' <= coverage)%Q ->
            acceptsWith summaries queryKeywords floor coverage r = true ->
            acceptsWith summaries queryKeywords floor' coverage' r = true).
  { intros floor floor' coverage coverage' Hf Hc. unfold acceptsWith.
    destruct (ref r) as [| |?| |rf|]; try done.
    destruct (relevanceScore r) as [| |sc| |?|]; try done.
    destruct (reason r) as [| |?| |text|]; try done.
    destruct (refToTab summaries !! rf) as [tab|]; [|by rewrite !andb_false_r].
    rewrite !andb_true_iff, !negb_true_iff.
    intros [[[H1 H2] H3] [[H4 H5] H6]].
    repeat split; try done.
    - by eapply Qltb_mono.
    - apply andb_false_iff in H6 as [H6|H6]; [|by rewrite H6, andb_false_r].
      by rewrite (Qltb_mono _ _ _ Hc H6). }
  split; [|exact Hmono].
  unfold firstPass, secondPass. by apply Hmono.
Qed.

(** X24.  A reason of 50 characters or more is exempt from the keyword
    coverage test: whether such a candidate is accepted depends neither
    on the query keywords nor on the coverage threshold. *)
Theorem long_reason_exempt_from_coverage summaries queryKeywords
  queryKeywords' floor coverage coverage' r text :
  reason r = VStr text ->
  (50 <= String.length text)%nat ->
  acceptsWith summaries queryKeywords floor coverage r
  = acceptsWith summaries queryKeywords' floor coverage' r.
Proof.
  intros Hreason Hlen. unfold acceptsWith. rewrite Hreason.
  apply Nat.ltb_ge in Hlen. rewrite Hlen. by rewrite !andb_false_r.
Qed.

Lemma long_reason_exempt_from_coverage_witness :
  (50 <= String.length
           "The 'hello world' guide shows greetings in many languages")%nat
  /\ acceptsWith helloDocs ["dinosaurs"; "fossils"] 6 (2 # 5)
       {| ref := VStr "tab1"; relevanceScore := VNum 9;
          reason :=
            VStr "The 'hello world' guide shows greetings in many languages"
       |}
     = true.
Proof.
  split; [vm_compute; lia|].
  rewrite (long_reason_exempt_from_coverage helloDocs
             ["dinosaurs"; "fossils"] [] 6 (2 # 5) 0 _
             "The 'hello world' guide shows greetings in many languages").
  - reflexivity.
  - reflexivity.
  - vm_compute. lia.
Defined.

End PassFacts.

(** ** Hashtag search: what is returned *)

Section TagSearchMoreFacts.

Import TagSearch.

Lemma tagSearch_fold_Some searchTags l id sc : forall acc,
  scoresMap (fold_left (tagStep searchTags) l acc) !! id = Some sc ->
  (exists s, In s l /\ tab_id s = id /\ anyHit searchTags s = true
             /\ sc = 10 * Z.of_nat
                            (List.length
                               (List.filter (docMatchesb s) searchTags)))
  \/ scoresMap acc !! id = Some sc.
Proof.
  induction l as [|x l IH]; intros acc Hl; cbn [fold_left] in Hl;
    [by right|].
  destruct (IH _ Hl) as [(s & Hs & Hid & Hhit & Hsc)|Hacc].
  - left. exists s. split; [by right|done].
  - destruct (anyHit searchTags x) eqn:E.
    + rewrite tagStep_hit in Hacc by done. cbn [scoresMap] in Hacc.
      destruct (decide (tab_id x = id)) as [Heq|Hne].
      * rewrite Heq, lookup_insert_eq in Hacc. injection Hacc as <-.
        left. exists x. split; [by left|done].
      * rewrite lookup_insert_ne in Hacc by done. by right.
    + rewrite tagStep_miss in Hacc by done. by right.
Qed.

(** X25.  Tag search returns the ids of the documents hit by some
    query tag, in the order of the documents; a document without tags
    is never returned and an empty tag list returns nothing; every
    stored score belongs to a returned document and is a multiple of
    10 between 10 and 10 times the number of query tags. *)
Theorem performTagSearch_results summaries searchTags :
  let r := performTagSearch summaries searchTags in
  results r = map tab_id (List.filter (anyHit searchTags) summaries)
  /\ (forall s, tab_tags s = [] -> anyHit searchTags s = false)
  /\ (searchTags = [] -> results r = [])
  /\ (forall id sc, scoresMap r !! id = Some sc ->
        In id (results r)
        /\ exists n, sc = 10 * Z.of_nat n
                     /\ (1 <= n <= List.length searchTags)%nat).
Proof.
  intros r.
  assert (Hres : results r
                 = map tab_id (List.filter (anyHit searchTags) summaries)).
  { unfold r, performTagSearch. by rewrite tagSearch_results. }
  split; [exact Hres|]. split; [|split].
  - intros s Htags. unfold anyHit, docMatchesb. rewrite Htags. cbn.
    clear. induction searchTags as [|q qs IH]; [done|]. cbn. exact IH.
  - intros ->. rewrite Hres. rewrite List_filter_none; [done|].
    by intros.
  - intros id sc Hsc. unfold r, performTagSearch in Hsc.
    apply tagSearch_fold_Some in Hsc
      as [(s & Hs & Hid & Hhit & ->)|He];
      [|cbn [scoresMap] in He; by rewrite lookup_empty in He].
    split.
    + rewrite Hres, in_map_iff. exists s. split; [done|].
      by apply filter_In.
    + exists (List.length (List.filter (docMatchesb s) searchTags)).
      split; [done|]. split.
      * destruct (List.filter (docMatchesb s) searchTags) eqn:E;
          [|cbn; lia].
        apply filter_nil_existsb in E. unfold anyHit in Hhit. congruence.
      * apply filter_length_le.
Qed.

End TagSearchMoreFacts.

(** ** Unique ids, progressive results *)

Section UniqueFacts.

Import Reconciler Examples.

Lemma NoDup_map_filter {A B} (f : A -> B) (p : A -> bool) l :
  NoDup (map f l) -> NoDup (map f (List.filter p l)).
Proof.
  induction l as [|x l IH]; intros Hnd; [done|].
  cbn [map] in Hnd. apply NoDup_cons in Hnd as [Hx Hnd].
  cbn [List.filter]. destruct (p x); [|by apply IH].
  cbn [map]. apply NoDup_cons. split; [|by apply IH].
  rewrite list_elem_of_In in *. intros Hin. apply Hx.
  apply in_map_iff in Hin as (y & Hy & Hin).
  apply filter_In in Hin as [Hin _]. apply in_map_iff. eauto.
Qed.

(** X27.  When the documents have pairwise distinct ids, the lexical
    scorer and the tag search return each id at most once. *)
Theorem unique_ids_give_unique_results parseURL summaries searchQuery
  fullTextData searchTags :
  NoDup (map tab_id summaries) ->
  NoDup (results (Lexical.performFallbackSearch parseURL summaries
                    searchQuery fullTextData))
  /\ NoDup (results (TagSearch.performTagSearch summaries searchTags)).
Proof.
  intros Hnd. split.
  - unfold Lexical.performFallbackSearch. cbn [results].
    apply NoDup_map_filter.
    rewrite (Permutation_map Lexical.st_id
               (sortStable_perm Lexical.byScoreDesc _)).
    by rewrite map_map.
  - unfold TagSearch.performTagSearch. rewrite tagSearch_results.
    cbn [results app]. by apply NoDup_map_filter.
Qed.

Lemma unique_ids_give_unique_results_witness :
  NoDup (results (Lexical.performFallbackSearch noUrl foodDocs "food" None)).
Proof.
  apply (unique_ids_give_unique_results noUrl foodDocs "food" None []).
  apply (bool_decide_unpack (NoDup (map tab_id foodDocs))).
  vm_compute. exact I.
Defined.

Variable parseURL : string -> option parsedUrl.
Variable openTabs : list browserTab.
Variable pageText : browserTab -> string.
Variable abortedAtTurn : nat -> bool.

Lemma searchTab_shown words i tab summary p :
  (found p = [] \/ rendered (now p) = found p) ->
  found (searchTab parseURL openTabs pageText words i tab summary p) = found p
  \/ (exists id,
        found (searchTab parseURL openTabs pageText words i tab summary p)
        = found p ++ [id])
     /\ rendered
          (now (searchTab parseURL openTabs pageText words i tab summary p))
        = found (searchTab parseURL openTabs pageText words i tab summary p).
Proof.
  intros Hp. unfold searchTab. cbv zeta.
  destruct (Lexical.minScore words <=? _); [right; split; [by eexists|done]|].
  unfold everyTenth.
  destruct (isScriptableUrl parseURL (bt_url tab)).
  - destruct (truthy (pageText tab)).
    + match goal with
      | |- context [if Lexical.minScore words <=? ?x then _ else _] =>
          destruct (Lexical.minScore words <=? x)
      end.
      * right. destruct (_ =? 0)%nat; (split; [by eexists|done]).
      * left. by destruct (_ =? 0)%nat.
    + left. by destruct (_ =? 0)%nat.
  - left. by destruct (_ =? 0)%nat.
Qed.

Lemma searchTab_rendered words i tab summary p :
  found (searchTab parseURL openTabs pageText words i tab summary p) = found p ->
  rendered (now (searchTab parseURL openTabs pageText words i tab summary p))
  = rendered (now p).
Proof.
  unfold searchTab. cbv zeta.
  destruct (Lexical.minScore words <=? _).
  { cbn. intros H. apply (f_equal List.length) in H.
    rewrite length_app in H. cbn in H. lia. }
  unfold everyTenth.
  destruct (isScriptableUrl parseURL (bt_url tab));
    [|by destruct (_ =? 0)%nat].
  destruct (truthy (pageText tab)); [|by destruct (_ =? 0)%nat].
  match goal with
  | |- context [if Lexical.minScore words <=? ?x then _ else _] =>
      destruct (Lexical.minScore words <=? x)
  end; [|by destruct (_ =? 0)%nat].
  intros H. assert (Hlen : List.length (found p ++ [bt_id tab])
                           = List.length (found p)).
  { destruct (_ =? 0)%nat; cbn in H; by rewrite H. }
  rewrite length_app in Hlen. cbn in Hlen. lia.
Qed.

Lemma aggressiveLoop_shown summaries words rest : forall i p,
  (found p = [] \/ rendered (now p) = found p) ->
  let p' := aggressiveLoop parseURL openTabs pageText abortedAtTurn
              summaries words i rest p in
  (exists more, found p' = found p ++ more)
  /\ (found p' = [] \/ rendered (now p') = found p')
  /\ (found p' = [] -> rendered (now p') = rendered (now p)).
Proof.
  induction rest as [|tab rest IH]; intros i p Hp; cbn [aggressiveLoop].
  - split; [exists []; by rewrite app_nil_r|]. by split.
  - destruct (List.find _ summaries) as [summary|]; [|by apply IH].
    destruct (abortedAtTurn i).
    { cbn. split; [exists []; by rewrite app_nil_r|]. by split. }
    set (q := searchTab parseURL openTabs pageText words i tab summary p).
    assert (Hq : found q = [] \/ rendered (now q) = found q).
    { destruct (searchTab_shown words i tab summary p Hp) as [Hsame|[_ Hr]];
        [|by right].
      fold q in Hsame. rewrite Hsame.
      destruct Hp as [Hp|Hp]; [by left|]. right.
      unfold q. by rewrite searchTab_rendered. }
    destruct (IH (S i) q Hq) as ((more & Hmore) & Hshown & Hnone).
    split; [|split; [exact Hshown|]].
    + destruct (searchTab_shown words i tab summary p Hp)
        as [Hsame|[[id Hid] _]].
      * fold q in Hsame. exists more. by rewrite Hmore, Hsame.
      * fold q in Hid. exists (id :: more). rewrite Hmore, Hid.
        by rewrite <- app_assoc.
    + intros Hnil. rewrite (Hnone Hnil). unfold q.
      apply searchTab_rendered. fold q.
      rewrite Hnil in Hmore. symmetry in Hmore.
      apply app_eq_nil in Hmore as [Hq0 _].
      destruct (searchTab_shown words i tab summary p Hp)
        as [Hsame|[[id Hid] _]]; [exact Hsame|].
      fold q in Hid. rewrite Hq0 in Hid. by destruct (found p).
Qed.

(** X28.  The aggressive search publishes its results as it goes:
    when it returns, aborted or not, the list it has shown is exactly
    the list of ids it returns, in the same order; when it returns
    nothing, the list that was shown before the search is still
    shown. *)
Theorem aggressive_shows_what_it_found summaries searchQuery w :
  let r :=
    aggressiveSearch parseURL openTabs pageText abortedAtTurn summaries
      searchQuery w in
  (fst r = [] /\ rendered (snd r) = rendered w)
  \/ (fst r <> [] /\ rendered (snd r) = fst r).
Proof.
  intros r. unfold r, aggressiveSearch. cbn [fst snd].
  match goal with
  | |- context [aggressiveLoop _ _ _ _ _ ?words 0 _ ?p0] =>
      destruct (aggressiveLoop_shown summaries words openTabs 0 p0
                  (or_introl eq_refl)) as (_ & H1 & H2);
      set (p := aggressiveLoop parseURL openTabs pageText abortedAtTurn
                  summaries words 0 openTabs p0) in *
  end.
  cbv zeta in H1, H2. cbn [setSources setStatus rendered].
  destruct (found p) as [|a l] eqn:E.
  - left. split; [done|]. by rewrite H2.
  - right. split; [done|]. by destruct H1.
Qed.

End UniqueFacts.
